(** * Record collection: storage, repository, search and handlers

    A shallow embedding of [src/database/models.py], [src/api/schemas.py],
    [src/api/crud.py], [src/api/services.py] and [src/api/routes.py].

    The SQLite store is a value of type [Db]: one list of rows per table, in
    rowid order.  Every repository function takes the store and returns
    either an exception or the committed store with its Python result; an
    exception leaves the caller with the store it had (the session is closed
    without a commit).

    Clocks: a date is a day number, and the functions take the readings of
    the clock they make as arguments.  [create_record] takes [now], the UTC
    date [datetime.utcnow] gives (the default of created_at and
    updated_at); [update_record] takes [today], the local date [date.today]
    gives (the assignment of line 144), and [utcnow], the UTC date
    [datetime.utcnow] gives at that moment (the onupdate of updated_at).
    Nothing relates the two readings: off UTC they differ for part of each
    day. *)

From Stdlib Require Import ZArith List String Ascii Bool Lia QArith_base Sorted.
Import ListNotations.
Local Open Scope string_scope.
Local Open Scope list_scope.
Local Open Scope Z_scope.

Set Implicit Arguments.

(** ** Exceptions and results *)

Inductive Exn : Type :=
| IntegrityError   (* sqlalchemy.exc.IntegrityError: a table constraint failed *)
| AttributeError   (* attribute access on an object that lacks it *)
| TypeError        (* iteration over None *)
| ValidationError. (* pydantic.ValidationError *)

Inductive result (A : Type) : Type :=
| Ok (a : A)
| Raise (e : Exn).

Arguments Ok {A} a.
Arguments Raise {A} e.

Definition bind {A B} (m : result A) (k : A -> result B) : result B :=
  match m with
  | Ok a => k a
  | Raise e => Raise e
  end.

Notation "x <- m ;; k" := (bind m (fun x => k))
  (at level 61, m at next level, right associativity).
Notation "' p <- m ;; k" := (bind m (fun x => match x with p => k end))
  (at level 61, p pattern, m at next level, right associativity).

(** ** database/models.py *)

Definition date := Z.

(** class Genre *)
Record Genre : Type := mkGenre {
  genre_id : Z;
  genre_name : string
}.

(** class Track *)
Record Track : Type := mkTrack {
  track_id : Z;
  track_record_id : Z;
  track_title : string;
  track_position : option string;
  track_duration : option string
}.

(** The columns of class Record (one row of table "records"). *)
Record RecordRow : Type := mkRow {
  id : Z;
  title : string;
  artist : string;
  release_date : option date;
  label : option string;
  catalog_number : option string;
  format : option string;
  condition : option string;
  purchase_date : option date;
  purchase_price : option Q;
  album_art_url : option string;
  notes : option string;
  discogs_url : option string;
  review_url : option string;
  created_at : date;
  updated_at : date
}.

(** A loaded Record object: its columns and its two relationships. *)
Record RecordObj : Type := mkObj {
  row : RecordRow;
  genres : list Genre;
  tracks : list Track
}.

(** The four tables; [record_genre] holds (record_id, genre_id). *)
Record Db : Type := mkDb {
  records : list RecordRow;
  genres_tbl : list Genre;
  tracks_tbl : list Track;
  record_genre : list (Z * Z)
}.

Definition empty_db : Db := mkDb [] [] [] [].

(** ** api/schemas.py *)

(** class TrackCreate *)
Record TrackCreate : Type := mkTrackCreate {
  tc_title : string;
  tc_position : option string;
  tc_duration : option string
}.

(** class RecordCreate *)
Record RecordCreate : Type := mkRecordCreate {
  rc_title : string;
  rc_artist : string;
  rc_release_date : option date;
  rc_label : option string;
  rc_catalog_number : option string;
  rc_format : option string;
  rc_condition : option string;
  rc_purchase_date : option date;
  rc_purchase_price : option Q;
  rc_album_art_url : option string;
  rc_notes : option string;
  rc_discogs_url : option string;
  rc_review_url : option string;
  rc_genres : option (list string);
  rc_tracks : option (list TrackCreate)
}.

(** class RecordUpdate.  Every field is optional and the model remembers
    which fields were set: [None] is an unset field, [Some None] a field
    set to None, [Some (Some v)] a field set to [v]. *)
Record RecordUpdate : Type := mkRecordUpdate {
  ru_title : option (option string);
  ru_artist : option (option string);
  ru_release_date : option (option date);
  ru_label : option (option string);
  ru_catalog_number : option (option string);
  ru_format : option (option string);
  ru_condition : option (option string);
  ru_purchase_date : option (option date);
  ru_purchase_price : option (option Q);
  ru_album_art_url : option (option string);
  ru_notes : option (option string);
  ru_discogs_url : option (option string);
  ru_review_url : option (option string);
  ru_genres : option (option (list string));
  ru_tracks : option (option (list TrackCreate))
}.

(** class RecordSearchResults, as the dict [search_records] returns. *)
Record SearchResults : Type := mkSearch {
  results : list RecordObj;
  total : nat
}.

(** ** The storage layer

    What the ORM and SQLite do underneath [crud.py], as far as the
    repository functions use it. *)

Definition set_records (db : Db) (l : list RecordRow) : Db :=
  mkDb l (genres_tbl db) (tracks_tbl db) (record_genre db).
Definition set_genres_tbl (db : Db) (l : list Genre) : Db :=
  mkDb (records db) l (tracks_tbl db) (record_genre db).
Definition set_tracks_tbl (db : Db) (l : list Track) : Db :=
  mkDb (records db) (genres_tbl db) l (record_genre db).
Definition set_record_genre (db : Db) (l : list (Z * Z)) : Db :=
  mkDb (records db) (genres_tbl db) (tracks_tbl db) l.

(** Rowid allocation of an INTEGER PRIMARY KEY column: 1 in an empty table,
    otherwise one more than the largest id in use. *)
Definition next_id (ids : list Z) : Z :=
  match ids with
  | [] => 1
  | x :: xs => fold_right Z.max x xs + 1
  end.

Definition mem_z (x : Z) (l : list Z) : bool := existsb (Z.eqb x) l.

Definition edge_eqb (e1 e2 : Z * Z) : bool :=
  (fst e1 =? fst e2) && (snd e1 =? snd e2).

(** [Genre(name=...)], [db.add], [db.flush]: one INSERT into "genres",
    whose name column is UNIQUE. *)
Definition insert_genre (db : Db) (name : string) : result (Db * Genre) :=
  if existsb (fun g => String.eqb (genre_name g) name) (genres_tbl db)
  then Raise IntegrityError
  else
    let g := mkGenre (next_id (map genre_id (genres_tbl db))) name in
    Ok (set_genres_tbl db (genres_tbl db ++ [g]), g).

(** One INSERT into "record_genre", whose primary key is the pair. *)
Definition insert_edge (db : Db) (e : Z * Z) : result Db :=
  if existsb (edge_eqb e) (record_genre db)
  then Raise IntegrityError
  else Ok (set_record_genre db (record_genre db ++ [e])).

Fixpoint insert_edges (db : Db) (es : list (Z * Z)) : result Db :=
  match es with
  | [] => Ok db
  | e :: es' => db' <- insert_edge db e ;; insert_edges db' es'
  end.

(** [Track(record_id=..., title=..., position=..., duration=...)],
    [db.add]: one INSERT into "tracks". *)
Definition insert_track (db : Db) (record_id : Z) (track_data : TrackCreate) : Db :=
  let t := mkTrack (next_id (map track_id (tracks_tbl db))) record_id
                   (tc_title track_data) (tc_position track_data)
                   (tc_duration track_data) in
  set_tracks_tbl db (tracks_tbl db ++ [t]).

(** Loading the relationships of a record: [Record.genres] joins
    "record_genre" with "genres", [Record.tracks] selects by record_id.
    The relationship has no order_by: the order of the genres, here that of
    the association rows, is the store's choice, and the genres of a record
    are related to the names of an input through membership only. *)
Definition genre_by_id (db : Db) (gid : Z) : option Genre :=
  find (fun g => genre_id g =? gid) (genres_tbl db).

Definition genres_of (db : Db) (rid : Z) : list Genre :=
  flat_map (fun e =>
              if fst e =? rid
              then match genre_by_id db (snd e) with
                   | Some g => [g]
                   | None => []
                   end
              else [])
           (record_genre db).

Definition tracks_of (db : Db) (rid : Z) : list Track :=
  filter (fun t => track_record_id t =? rid) (tracks_tbl db).

Definition load (db : Db) (r : RecordRow) : RecordObj :=
  mkObj r (genres_of db (id r)) (tracks_of db (id r)).

(** [.offset(skip).limit(limit)] on SQLite: a negative OFFSET counts as
    zero, a negative LIMIT is no limit. *)
Definition page {A} (skip limit : Z) (l : list A) : list A :=
  let l' := skipn (Z.to_nat skip) l in
  if limit <? 0 then l' else firstn (Z.to_nat limit) l'.

(** The flush of a modified [db_record.genres] collection: the association
    rows of the members that were not in the collection at the last flush
    are inserted, one per occurrence in the list, and the rows of the members
    that left it are deleted. *)
Definition sync_genres (db : Db) (rid : Z) (cur : list Z) : result Db :=
  let orig := map snd (filter (fun e => fst e =? rid) (record_genre db)) in
  let added := filter (fun g => negb (mem_z g orig)) cur in
  let kept := filter (fun e => negb (fst e =? rid) || mem_z (snd e) cur)
                     (record_genre db) in
  insert_edges (set_record_genre db kept) (map (pair rid) added).

(** ** LIKE

    [col.ilike(p)] is rendered for SQLite as [lower(col) LIKE lower(p)];
    in the pattern, "%" matches any run of characters and "_" any single
    character, and no escape character is set. *)

Definition is_upper (c : ascii) : bool :=
  ((65 <=? nat_of_ascii c) && (nat_of_ascii c <=? 90))%nat.

Definition lower_ascii (c : ascii) : ascii :=
  if is_upper c then ascii_of_nat (nat_of_ascii c + 32) else c.

Definition lower (s : list ascii) : list ascii := map lower_ascii s.

Fixpoint some_suffix (f : list ascii -> bool) (t : list ascii) : bool :=
  f t || match t with
         | [] => false
         | _ :: t' => some_suffix f t'
         end.

Fixpoint like (p s : list ascii) : bool :=
  match p with
  | [] => match s with [] => true | _ :: _ => false end
  | c :: p' =>
      if Ascii.eqb c "%"%char then some_suffix (like p') s
      else match s with
           | [] => false
           | d :: s' => (Ascii.eqb c "_"%char || Ascii.eqb c d) && like p' s'
           end
  end.

Definition ilike (col pattern : string) : bool :=
  like (lower (list_ascii_of_string pattern)) (lower (list_ascii_of_string col)).

(** A nullable column: NULL LIKE p is NULL, which a filter drops. *)
Definition ilike_null (col : option string) (pattern : string) : bool :=
  match col with
  | Some s => ilike s pattern
  | None => false
  end.

(** ** api/crud.py *)

Definition find_record (db : Db) (record_id : Z) : option RecordRow :=
  find (fun r => id r =? record_id) (records db).

(** [db.query(Record).filter(Record.id == record_id).first()] *)
Definition get_record (db : Db) (record_id : Z) : option RecordObj :=
  option_map (load db) (find_record db record_id).

Definition get_records (db : Db) (skip limit : Z) : list RecordObj :=
  page skip limit (map (load db) (records db)).

(** The filter of [search_records]: the [or_] of five conditions. *)
Definition search_filter (db : Db) (search : string) (r : RecordRow) : bool :=
  ilike (title r) search
  || ilike (artist r) search
  || ilike_null (label r) search
  || ilike_null (catalog_number r) search
  || existsb (fun g => ilike (genre_name g) search) (genres_of db (id r)).

Definition search_records (db : Db) (query : string) (skip limit : Z)
  : SearchResults :=
  let search := ("%" ++ query ++ "%")%string in
  let records_query := filter (search_filter db search) (records db) in
  let total := List.length records_query in
  let records := page skip limit records_query in
  mkSearch (map (load db) records) total.

(** [db.query(Genre).filter(Genre.name == name).first()] *)
Definition get_genre_by_name (db : Db) (name : string) : option Genre :=
  find (fun g => String.eqb (genre_name g) name) (genres_tbl db).

Definition get_genres (db : Db) (skip limit : Z) : list Genre :=
  page skip limit (genres_tbl db).

(** The genre loop of [create_record] (lines 56-63); [db_genres] is the
    list the loop appends to. *)
Fixpoint create_genres (db : Db) (names : list string) (db_genres : list Genre)
  : result (Db * list Genre) :=
  match names with
  | [] => Ok (db, db_genres)
  | genre_name :: rest =>
      '(db1, genre) <- match get_genre_by_name db genre_name with
                       | Some g => Ok (db, g)
                       | None => insert_genre db genre_name
                       end ;;
      create_genres db1 rest (db_genres ++ [genre])
  end.

Definition create_row (record : RecordCreate) (rid : Z) (now : date) : RecordRow :=
  mkRow rid (rc_title record) (rc_artist record) (rc_release_date record)
        (rc_label record) (rc_catalog_number record) (rc_format record)
        (rc_condition record) (rc_purchase_date record)
        (rc_purchase_price record) (rc_album_art_url record) (rc_notes record)
        (rc_discogs_url record) (rc_review_url record) now now.

Definition create_record (db : Db) (record : RecordCreate) (now : date)
  : result (Db * RecordObj) :=
  '(db1, db_genres) <- match rc_genres record with
                       | Some (n :: ns) => create_genres db (n :: ns) []
                       | _ => Ok (db, [])
                       end ;;
  (* db.add(db_record); db.flush(): the row, then one association row per
     element of db_genres *)
  let rid := next_id (map id (records db1)) in
  let db_record := create_row record rid now in
  let db2 := set_records db1 (records db1 ++ [db_record]) in
  db3 <- insert_edges db2 (map (fun g => (rid, genre_id g)) db_genres) ;;
  let db4 := match rc_tracks record with
             | Some track_list =>
                 fold_left (fun d track_data => insert_track d rid track_data)
                           track_list db3
             | None => db3
             end in
  Ok (db4, load db4 db_record).

(** The genre loop of [update_record] (lines 116-122).  [cur] is the
    content of [db_record.genres], as genre ids; the flush that follows the
    creation of a genre also flushes the collection as it stands. *)
Fixpoint update_genres (db : Db) (rid : Z) (names : list string) (cur : list Z)
  : result (Db * list Z) :=
  match names with
  | [] => Ok (db, cur)
  | genre_name :: rest =>
      '(db1, genre) <- match get_genre_by_name db genre_name with
                       | Some g => Ok (db, g)
                       | None =>
                           db' <- sync_genres db rid cur ;;
                           insert_genre db' genre_name
                       end ;;
      update_genres db1 rid rest (cur ++ [genre_id genre])
  end.

(** [setattr(db_record, key, value)] for a key of [update_data]. *)
Definition setattr {A} (value : option A) (old : A) : A :=
  match value with
  | Some v => v
  | None => old
  end.

(** The same on a NOT NULL column: None is refused when the row is
    written. *)
Definition setattr_not_null {A} (value : option (option A)) (old : A) : result A :=
  match value with
  | None => Ok old
  | Some (Some v) => Ok v
  | Some None => Raise IntegrityError
  end.

(** The loop [for key, value in update_data.items()] and the assignment
    of [updated_at] (line 144), given the values of the two NOT NULL
    columns: the attributes of [db_record] before the commit. *)
Definition assign_row (db_record : RecordRow) (record_update : RecordUpdate)
           (new_title new_artist : string) (today : date) : RecordRow :=
  mkRow (id db_record) new_title new_artist
        (setattr (ru_release_date record_update) (release_date db_record))
        (setattr (ru_label record_update) (label db_record))
        (setattr (ru_catalog_number record_update) (catalog_number db_record))
        (setattr (ru_format record_update) (format db_record))
        (setattr (ru_condition record_update) (condition db_record))
        (setattr (ru_purchase_date record_update) (purchase_date db_record))
        (setattr (ru_purchase_price record_update) (purchase_price db_record))
        (setattr (ru_album_art_url record_update) (album_art_url db_record))
        (setattr (ru_notes record_update) (notes db_record))
        (setattr (ru_discogs_url record_update) (discogs_url db_record))
        (setattr (ru_review_url record_update) (review_url db_record))
        (created_at db_record) today.

(** [x == y] on the values of a nullable column. *)
Definition eq_opt {A} (eqb : A -> A -> bool) (x y : option A) : bool :=
  match x, y with
  | Some a, Some b => eqb a b
  | None, None => true
  | _, _ => false
  end.

(** Whether the flush finds a net change in a column other than
    [updated_at]: an attribute whose value differs ([==]) from the loaded
    one.  Only such columns enter the SET clause of the UPDATE. *)
Definition modified (loaded current : RecordRow) : bool :=
  negb (String.eqb (title loaded) (title current)
        && String.eqb (artist loaded) (artist current)
        && eq_opt Z.eqb (release_date loaded) (release_date current)
        && eq_opt String.eqb (label loaded) (label current)
        && eq_opt String.eqb (catalog_number loaded) (catalog_number current)
        && eq_opt String.eqb (format loaded) (format current)
        && eq_opt String.eqb (condition loaded) (condition current)
        && eq_opt Z.eqb (purchase_date loaded) (purchase_date current)
        && eq_opt Qeq_bool (purchase_price loaded) (purchase_price current)
        && eq_opt String.eqb (album_art_url loaded) (album_art_url current)
        && eq_opt String.eqb (notes loaded) (notes current)
        && eq_opt String.eqb (discogs_url loaded) (discogs_url current)
        && eq_opt String.eqb (review_url loaded) (review_url current)).

Definition set_updated_at (r : RecordRow) (d : date) : RecordRow :=
  mkRow (id r) (title r) (artist r) (release_date r) (label r)
        (catalog_number r) (format r) (condition r) (purchase_date r)
        (purchase_price r) (album_art_url r) (notes r) (discogs_url r)
        (review_url r) (created_at r) d.

(** The row [db.commit()] leaves.  The assigned [updated_at] is written
    when it differs from the loaded one.  When it equals it, the column has
    no net change and is left out of the SET clause; an UPDATE that is
    issued nevertheless, for another column, then fills it with
    [onupdate=datetime.utcnow] (models.py 38). *)
Definition update_row (db_record : RecordRow) (record_update : RecordUpdate)
           (new_title new_artist : string) (today utcnow : date) : RecordRow :=
  let assigned :=
    assign_row db_record record_update new_title new_artist today in
  set_updated_at assigned
    (if (today =? updated_at db_record) && modified db_record assigned
     then utcnow
     else today).

(** Lines 113-122: the "genres" key.  The result carries the new content
    of [db_record.genres] when the key is present. *)
Definition replace_genres (db : Db) (record_id : Z) (record_update : RecordUpdate)
  : result (Db * option (list Z)) :=
  match ru_genres record_update with
  | None => Ok (db, None)
  | Some None => Raise TypeError
  | Some (Some names) =>
      '(d, c) <- update_genres db record_id names [] ;;
      Ok (d, Some c)
  end.

(** Lines 125-137: the "tracks" key.  The bulk delete runs first; the loop
    then reads [track_data.title] on the first element of [tracks_data],
    and the elements [record_update.dict()] produced are dicts. *)
Definition replace_tracks (db : Db) (record_id : Z) (record_update : RecordUpdate)
  : result Db :=
  match ru_tracks record_update with
  | None => Ok db
  | Some None => Raise TypeError
  | Some (Some tracks_data) =>
      let d := set_tracks_tbl db
                 (filter (fun t => negb (track_record_id t =? record_id))
                         (tracks_tbl db)) in
      match tracks_data with
      | [] => Ok d
      | _ :: _ => Raise AttributeError
      end
  end.

Definition update_record (db : Db) (record_id : Z) (record_update : RecordUpdate)
           (today utcnow : date) : result (Db * option RecordObj) :=
  match find_record db record_id with
  | None => Ok (db, None)
  | Some db_record =>
      '(db1, cur) <- replace_genres db record_id record_update ;;
      db2 <- replace_tracks db1 record_id record_update ;;
      (* the other keys, the timestamp, db.commit() *)
      new_title <- setattr_not_null (ru_title record_update) (title db_record) ;;
      new_artist <- setattr_not_null (ru_artist record_update) (artist db_record) ;;
      let new_record :=
        update_row db_record record_update new_title new_artist today utcnow in
      db3 <- match cur with
             | Some c => sync_genres db2 record_id c
             | None => Ok db2
             end ;;
      let db4 := set_records db3
                   (map (fun r => if id r =? record_id then new_record else r)
                        (records db3)) in
      Ok (db4, Some (load db4 new_record))
  end.

(** [db.delete(db_record)]: the row, its tracks (cascade
    "all, delete-orphan") and its association rows. *)
Definition delete_record (db : Db) (record_id : Z) : result (Db * bool) :=
  match find_record db record_id with
  | None => Ok (db, false)
  | Some _ =>
      Ok (mkDb (filter (fun r => negb (id r =? record_id)) (records db))
               (genres_tbl db)
               (filter (fun t => negb (track_record_id t =? record_id))
                       (tracks_tbl db))
               (filter (fun e => negb (fst e =? record_id)) (record_genre db)),
          true)
  end.

(** ** Schema constraints

    The constraints [models.py] declares on the tables: primary keys, the
    unique genre name, the foreign keys of "tracks" and "record_genre".
    "records" is kept in rowid order, which is the order of its ids. *)

Record wf (db : Db) : Prop := mkWf {
  wf_records : StronglySorted Z.lt (map id (records db));
  wf_genre_ids : NoDup (map genre_id (genres_tbl db));
  wf_genre_names : NoDup (map genre_name (genres_tbl db));
  wf_edges : NoDup (record_genre db);
  wf_edge_record :
    forall e, In e (record_genre db) -> In (fst e) (map id (records db));
  wf_edge_genre :
    forall e, In e (record_genre db) -> In (snd e) (map genre_id (genres_tbl db));
  wf_track_record :
    forall t, In t (tracks_tbl db) -> In (track_record_id t) (map id (records db))
}.

(** ** Vocabulary of the specification *)

(** The genre names and the tracks of a create input (both default to the
    empty list). *)
Definition input_genres (record : RecordCreate) : list string :=
  match rc_genres record with
  | Some l => l
  | None => []
  end.

Definition input_tracks (record : RecordCreate) : list TrackCreate :=
  match rc_tracks record with
  | Some l => l
  | None => []
  end.

(** What a stored track shows of the input it was made from. *)
Definition track_data (t : Track) : TrackCreate :=
  mkTrackCreate (track_title t) (track_position t) (track_duration t).

(** "Only fields present in the partial input are changed." *)
Definition field_updated {A} (input : option A) (before after : A) : Prop :=
  match input with
  | Some v => after = v
  | None => after = before
  end.

(** [q] occurs in [s] as a contiguous run of characters. *)
Fixpoint prefixb (q s : list ascii) : bool :=
  match q, s with
  | [], _ => true
  | _ :: _, [] => false
  | c :: q', d :: s' => Ascii.eqb c d && prefixb q' s'
  end.

Fixpoint containsb (q s : list ascii) : bool :=
  prefixb q s || match s with
                 | [] => false
                 | _ :: s' => containsb q s'
                 end.

(** Case-insensitive substring, on the letters A-Z. *)
Definition contains_ci (q s : string) : bool :=
  containsb (lower (list_ascii_of_string q)) (lower (list_ascii_of_string s)).

Definition contains_ci_null (q : string) (s : option string) : bool :=
  match s with
  | Some s' => contains_ci q s'
  | None => false
  end.

(** The matching rule of the specification (4.3). *)
Definition spec_matches (q : string) (r : RecordObj) : bool :=
  contains_ci q (title (row r))
  || contains_ci q (artist (row r))
  || contains_ci_null q (label (row r))
  || contains_ci_null q (catalog_number (row r))
  || existsb (fun g => contains_ci q (genre_name g)) (genres r).

(** The stored collection, in identifier order. *)
Definition all_records (db : Db) : list RecordObj :=
  map (load db) (records db).



(** Update inputs on which no step of [update_record] raises: no None for
    title or artist, no None and no repeated name for genres, and for
    tracks nothing but the empty list. *)
Definition update_accepted (u : RecordUpdate) : Prop :=
  ru_title u <> Some None /\ ru_artist u <> Some None /\
  match ru_genres u with
  | None => True
  | Some None => False
  | Some (Some names) => NoDup names
  end /\
  match ru_tracks u with
  | None | Some (Some []) => True
  | _ => False
  end.

(** ** Sample data *)

Definition blank_create (t a : string) : RecordCreate :=
  mkRecordCreate t a None None None None None None None None None None None
                 None None.

Definition blank_update : RecordUpdate :=
  mkRecordUpdate None None None None None None None None None None None None
                 None None None.

Definition with_genres (record : RecordCreate) (names : list string) : RecordCreate :=
  mkRecordCreate (rc_title record) (rc_artist record) (rc_release_date record)
                 (rc_label record) (rc_catalog_number record) (rc_format record)
                 (rc_condition record) (rc_purchase_date record)
                 (rc_purchase_price record) (rc_album_art_url record)
                 (rc_notes record) (rc_discogs_url record) (rc_review_url record)
                 (Some names) (rc_tracks record).

Definition with_tracks (record : RecordCreate) (l : list TrackCreate) : RecordCreate :=
  mkRecordCreate (rc_title record) (rc_artist record) (rc_release_date record)
                 (rc_label record) (rc_catalog_number record) (rc_format record)
                 (rc_condition record) (rc_purchase_date record)
                 (rc_purchase_price record) (rc_album_art_url record)
                 (rc_notes record) (rc_discogs_url record) (rc_review_url record)
                 (rc_genres record) (Some l).

Definition with_price (record : RecordCreate) (p : Q) : RecordCreate :=
  mkRecordCreate (rc_title record) (rc_artist record) (rc_release_date record)
                 (rc_label record) (rc_catalog_number record) (rc_format record)
                 (rc_condition record) (rc_purchase_date record)
                 (Some p) (rc_album_art_url record)
                 (rc_notes record) (rc_discogs_url record) (rc_review_url record)
                 (rc_genres record) (rc_tracks record).

Definition update_genres_only (names : list string) : RecordUpdate :=
  mkRecordUpdate None None None None None None None None None None None None
                 None (Some (Some names)) None.

Definition update_tracks_only (l : list TrackCreate) : RecordUpdate :=
  mkRecordUpdate None None None None None None None None None None None None
                 None None (Some (Some l)).

Definition update_title_only (t : string) : RecordUpdate :=
  mkRecordUpdate (Some (Some t)) None None None None None None None None None
                 None None None None None.

(** The scenario of the specification: "Test Album" by "Test Artist",
    genres Rock and Pop, tracks A1 and A2. *)
Definition test_album : RecordCreate :=
  with_tracks (with_genres (blank_create "Test Album" "Test Artist")
                           ["Rock"; "Pop"])
              [mkTrackCreate "Track 1" (Some "A1") None;
               mkTrackCreate "Track 2" (Some "A2") None].

Definition store_of {A} (r : result (Db * A)) : Db :=
  match r with
  | Ok (db, _) => db
  | Raise _ => empty_db
  end.

(** The store after [test_album] is created on day 10, and after a second
    record is created on day 11. *)
Definition db_one : Db := store_of (create_record empty_db test_album 10).

Definition db_two : Db :=
  store_of (create_record db_one
              (with_genres (blank_create "Kind of Blue" "Miles Davis")
                           ["Jazz"; "Rock"]) 11).

(** The record of [db_one], as loaded. *)
Definition rec_one : RecordObj := load db_one (create_row test_album 1 10).

(** ** api/services.py

    The two providers, without the network.  What a request gives is a
    parameter: either it fails (the connection, the status or the decoding
    raises) or it yields the decoded JSON document.  The values the
    functions handle are whatever the document holds, so the operations of
    Python they use are written out with their exceptions. *)

Module services.

(** A number as the decoder gives it: an int or a finite float, or one of
    the three non-finite floats it also accepts. *)
Inductive number : Type :=
| Finite (q : Q)
| NaN
| Infinity
| MinusInfinity.

Definition nonzero (n : number) : bool :=
  match n with
  | Finite q => negb (Qnum q =? 0)
  | _ => true
  end.

(** A value decoded from JSON; [JNull] is None. *)
#[local] Unset Elimination Schemes.
Inductive json : Type :=
| JNull
| JBool (b : bool)
| JNum (n : number)
| JStr (s : string)
| JList (l : list json)
| JDict (items : list (string * json)).
#[local] Set Elimination Schemes.

Inductive exn : Type :=
| TypeError
| AttributeError
| KeyError
| IndexError.

Inductive py (A : Type) : Type :=
| Return (a : A)
| Raised (e : exn).

Arguments Return {A} a.
Arguments Raised {A} e.

Definition pbind {A B} (m : py A) (k : A -> py B) : py B :=
  match m with
  | Return a => k a
  | Raised e => Raised e
  end.

Notation "x <~ m ;; k" := (pbind m (fun x => k))
  (at level 61, m at next level, right associativity).

(** The outcome of [client.get], [raise_for_status] and [response.json]. *)
Inductive exchange : Type :=
| Fails
| Parsed (data : json).

Definition lookup (items : list (string * json)) (key : string) : option json :=
  option_map snd (find (fun kv => String.eqb (fst kv) key) items).

(** [bool(x)] *)
Definition truthy (x : json) : bool :=
  match x with
  | JNull => false
  | JBool b => b
  | JNum n => nonzero n
  | JStr s => negb (String.eqb s "")
  | JList l => match l with [] => false | _ :: _ => true end
  | JDict items => match items with [] => false | _ :: _ => true end
  end.

(** [x.get(key)] *)
Definition py_get (x : json) (key : string) : py json :=
  match x with
  | JDict items => Return (match lookup items key with
                           | Some v => v
                           | None => JNull
                           end)
  | _ => Raised AttributeError
  end.

(** [x[key]] for a string [key] *)
Definition py_item (x : json) (key : string) : py json :=
  match x with
  | JDict items => match lookup items key with
                   | Some v => Return v
                   | None => Raised KeyError
                   end
  | _ => Raised TypeError
  end.

(** [x[0]] *)
Definition py_first (x : json) : py json :=
  match x with
  | JList l => match l with
               | v :: _ => Return v
               | [] => Raised IndexError
               end
  | JStr s => match s with
              | String c _ => Return (JStr (String c ""))
              | EmptyString => Raised IndexError
              end
  | JDict _ => Raised KeyError
  | _ => Raised TypeError
  end.

(** [len(x)] *)
Definition py_len (x : json) : py nat :=
  match x with
  | JStr s => Return (String.length s)
  | JList l => Return (List.length l)
  | JDict items => Return (List.length items)
  | _ => Raised TypeError
  end.

Definition is_str (key : string) (x : json) : bool :=
  match x with
  | JStr s => String.eqb s key
  | _ => false
  end.

(** [key in x] for a string [key]: a key of a dict, an element of a list,
    a substring of a string. *)
Definition py_in (key : string) (x : json) : py bool :=
  match x with
  | JDict items => Return (match lookup items key with
                           | Some _ => true
                           | None => false
                           end)
  | JList l => Return (existsb (is_str key) l)
  | JStr s => Return (containsb (list_ascii_of_string key)
                                (list_ascii_of_string s))
  | _ => Raised TypeError
  end.

(** [except Exception: return None] *)
Definition or_none (m : py json) : json :=
  match m with
  | Return v => v
  | Raised _ => JNull
  end.

Section Config.

Variables DISCOGS_API_KEY DISCOGS_API_SECRET LASTFM_API_KEY : string.

Definition search_discogs (artist title : string) (http : exchange) : json :=
  if String.eqb DISCOGS_API_KEY "" || String.eqb DISCOGS_API_SECRET ""
  then JNull
  else
    match http with
    | Fails => JNull
    | Parsed data =>
        or_none
          (results <~ py_get data "results" ;;
           if truthy results
           then
             results1 <~ py_item data "results" ;;
             n <~ py_len results1 ;;
             if (0 <? n)%nat
             then results2 <~ py_item data "results" ;; py_first results2
             else Return JNull
           else Return JNull)
    end.

Definition get_album_art (artist title : string) (http : exchange) : py json :=
  let result := search_discogs artist title http in
  if truthy result
  then
    present <~ py_in "cover_image" result ;;
    if present then py_item result "cover_image" else Return JNull
  else Return JNull.

Definition get_album_info (artist title : string) (http : exchange)
  : py (json * json) :=
  let result := search_discogs artist title http in
  if negb (truthy result)
  then Return (JNull, JNull)
  else
    album_art <~ py_get result "cover_image" ;;
    present <~ py_in "uri" result ;;
    discogs_url <~ (if present then py_item result "uri" else Return JNull) ;;
    Return (album_art, discogs_url).

Definition get_lastfm_review (artist title : string) (http : exchange) : json :=
  if String.eqb LASTFM_API_KEY ""
  then JNull
  else
    match http with
    | Fails => JNull
    | Parsed data =>
        or_none
          (has_album <~ py_in "album" data ;;
           if has_album
           then
             album <~ py_item data "album" ;;
             has_url <~ py_in "url" album ;;
             if has_url
             then album1 <~ py_item data "album" ;; py_item album1 "url"
             else Return JNull
           else Return JNull)
    end.

End Config.

End services.

(** A Discogs answer with one release, for the examples. *)
Definition sample_discogs : services.exchange :=
  services.Parsed
    (services.JDict
       [("results",
         services.JList
           [services.JDict
              [("title", services.JStr "Miles Davis - Kind Of Blue");
               ("cover_image", services.JStr "https://img.example/kob.jpg");
               ("uri", services.JStr "/release/kob")]])]).

Definition sample_lastfm : services.exchange :=
  services.Parsed
    (services.JDict
       [("album",
         services.JDict
           [("name", services.JStr "Kind of Blue");
            ("url", services.JStr "https://www.last.fm/music/Miles+Davis/Kind+of+Blue")])]).

(** The value under a key of an object, None when the key is absent. *)
Definition or_null (o : option services.json) : services.json :=
  match o with
  | Some v => v
  | None => services.JNull
  end.

(** ** api/routes.py

    The handlers, without the HTTP framing.  A handler answers with a body,
    raises HTTPException, or lets an exception of [crud] through; the
    handlers that write also return the committed store.  [create_record]
    and [fetch_album_info] await the two lookups of [services]: they take
    what the request to each provider gives. *)

Inductive answer (A : Type) : Type :=
| Respond (body : A)
| HTTPException (status_code : Z) (detail : string)
| Unhandled (e : Exn).

Arguments Respond {A} body.
Arguments HTTPException {A} status_code detail.
Arguments Unhandled {A} e.

(** Truth value of an Optional[str]: None and "" are false. *)
Definition truthy (o : option string) : bool :=
  match o with
  | Some s => negb (String.eqb s "")
  | None => false
  end.

Module routes.

(** What [create_record] ends in: the record it answers with and the
    committed store; an exception of the lookups or of [crud], which it
    does not catch; or a request whose url attribute holds a value that is
    not a string, which [RecordCreate] as modelled cannot hold. *)
Inductive created : Type :=
| Created (db' : Db) (db_record : RecordObj)
| ServiceRaised (e : services.exn)
| CrudRaised (e : Exn)
| NotAString.

Section Services.

Variables DISCOGS_API_KEY DISCOGS_API_SECRET LASTFM_API_KEY : string.

(** [if not record.f and f: record.f = f].  The assignment is not
    validated: the attribute takes the looked-up value whatever its type.
    The result is None when that is a true value other than a string. *)
Definition fill (user : option string) (looked_up : services.json)
  : option (option string) :=
  if negb (truthy user) && services.truthy looked_up
  then match looked_up with
       | services.JStr s => Some (Some s)
       | _ => None
       end
  else Some user.

(** Lines 44-57 of [create_record]: the record as it is handed to [crud].
    [get_lastfm_review] is awaited after [get_album_info] has returned. *)
Definition enrich (record : RecordCreate) (discogs lastfm : services.exchange)
  : services.py (option RecordCreate) :=
  if negb (truthy (rc_album_art_url record))
     || negb (truthy (rc_discogs_url record))
     || negb (truthy (rc_review_url record))
  then
    services.pbind
      (services.get_album_info DISCOGS_API_KEY DISCOGS_API_SECRET
                               (rc_artist record) (rc_title record) discogs)
      (fun info =>
         let review_url :=
           services.get_lastfm_review LASTFM_API_KEY
                                      (rc_artist record) (rc_title record)
                                      lastfm in
         services.Return
           match fill (rc_album_art_url record) (fst info),
                 fill (rc_discogs_url record) (snd info),
                 fill (rc_review_url record) review_url with
           | Some album_art_url, Some discogs_url, Some review_url =>
               Some (mkRecordCreate
                       (rc_title record) (rc_artist record)
                       (rc_release_date record) (rc_label record)
                       (rc_catalog_number record) (rc_format record)
                       (rc_condition record) (rc_purchase_date record)
                       (rc_purchase_price record) album_art_url
                       (rc_notes record) discogs_url review_url
                       (rc_genres record) (rc_tracks record))
           | _, _, _ => None
           end)
  else services.Return (Some record).

Definition create_record (db : Db) (record : RecordCreate) (now : date)
           (discogs lastfm : services.exchange) : created :=
  match enrich record discogs lastfm with
  | services.Raised e => ServiceRaised e
  | services.Return None => NotAString
  | services.Return (Some record') =>
      match create_record db record' now with
      | Ok (db', db_record) => Created db' db_record
      | Raise e => CrudRaised e
      end
  end.

(** [fetch_album_info]: the three looked-up values of the dict. *)
Definition fetch_album_info (artist title : string)
           (discogs lastfm : services.exchange)
  : services.py (services.json * services.json * services.json) :=
  services.pbind
    (services.get_album_info DISCOGS_API_KEY DISCOGS_API_SECRET
                             artist title discogs)
    (fun info =>
       let review_url :=
         services.get_lastfm_review LASTFM_API_KEY artist title lastfm in
       services.Return (fst info, snd info, review_url)).

End Services.

Definition read_records (db : Db) (skip limit : Z) : answer (list RecordObj) :=
  Respond (get_records db skip limit).

Definition search_records (db : Db) (q : string) (skip limit : Z)
  : answer SearchResults :=
  Respond (search_records db q skip limit).

Definition read_record (db : Db) (record_id : Z) : answer RecordObj :=
  match get_record db record_id with
  | None => HTTPException 404 "Record not found"
  | Some db_record => Respond db_record
  end.

Definition update_record (db : Db) (record_id : Z) (record : RecordUpdate)
           (today utcnow : date) : answer (Db * RecordObj) :=
  match update_record db record_id record today utcnow with
  | Ok (_, None) => HTTPException 404 "Record not found"
  | Ok (db', Some db_record) => Respond (db', db_record)
  | Raise e => Unhandled e
  end.

Definition delete_record (db : Db) (record_id : Z) : answer (Db * bool) :=
  match delete_record db record_id with
  | Ok (_, false) => HTTPException 404 "Record not found"
  | Ok (db', true) => Respond (db', true)
  | Raise e => Unhandled e
  end.

Definition read_genres (db : Db) (skip limit : Z) : answer (list Genre) :=
  Respond (get_genres db skip limit).

End routes.



(** * Proofs *)

Ltac split_and := repeat match goal with |- _ /\ _ => split end.

(** ** Lists and keys *)

Section Keys.
Context {A K : Type}.
Variable key : A -> K.
Variable eqb : K -> K -> bool.
Hypothesis eqb_eq : forall x y, eqb x y = true <-> x = y.

Lemma key_inj (l : list A) (a b : A) :
  NoDup (map key l) -> In a l -> In b l -> key a = key b -> a = b.
Proof.
  induction l as [|x l IH]; simpl; intros Hnd Ha Hb Hk; [contradiction|].
  inversion Hnd as [|? ? Hx Hl]; subst.
  destruct Ha as [<-|Ha], Hb as [<-|Hb]; auto.
  - exfalso. apply Hx. rewrite Hk. now apply in_map.
  - exfalso. apply Hx. rewrite <- Hk. now apply in_map.
Qed.

Lemma find_key (l : list A) (a : A) :
  NoDup (map key l) -> In a l ->
  find (fun x => eqb (key x) (key a)) l = Some a.
Proof.
  intros Hnd Ha.
  destruct (find (fun x => eqb (key x) (key a)) l) as [b|] eqn:E.
  - apply find_some in E. destruct E as [Hb Hk].
    apply eqb_eq in Hk. f_equal. now apply (key_inj l).
  - exfalso. apply (find_none _ _ E) in Ha.
    assert (eqb (key a) (key a) = true) by now apply eqb_eq.
    congruence.
Qed.

Lemma find_key_absent (l : list A) (k : K) :
  ~ In k (map key l) -> find (fun x => eqb (key x) k) l = None.
Proof.
  intros Hk.
  destruct (find (fun x => eqb (key x) k) l) as [b|] eqn:E; [|reflexivity].
  apply find_some in E. destruct E as [Hb Hkb]. apply eqb_eq in Hkb.
  exfalso. apply Hk. rewrite <- Hkb. now apply in_map.
Qed.

Lemma find_key_in (l : list A) (k : K) (a : A) :
  find (fun x => eqb (key x) k) l = Some a -> In a l /\ key a = k.
Proof.
  intros E. apply find_some in E. destruct E as [Ha Hk].
  split; [assumption|now apply eqb_eq].
Qed.

Lemma find_key_none (l : list A) (k : K) :
  find (fun x => eqb (key x) k) l = None -> ~ In k (map key l).
Proof.
  intros E Hin. apply in_map_iff in Hin. destruct Hin as (a & Hk & Ha).
  apply (find_none _ _ E) in Ha.
  assert (eqb (key a) k = true) by now apply eqb_eq.
  congruence.
Qed.
End Keys.

Lemma find_app_l {A} (f : A -> bool) (l1 l2 : list A) (x : A) :
  find f l1 = Some x -> find f (l1 ++ l2) = Some x.
Proof.
  induction l1 as [|a l1 IH]; simpl; [discriminate|].
  destruct (f a); auto.
Qed.

Lemma find_app_r {A} (f : A -> bool) (l1 l2 : list A) :
  find f l1 = None -> find f (l1 ++ l2) = find f l2.
Proof.
  induction l1 as [|a l1 IH]; simpl; [reflexivity|].
  destruct (f a); [discriminate|auto].
Qed.

Lemma find_none_existsb {A} (f : A -> bool) (l : list A) :
  find f l = None -> existsb f l = false.
Proof.
  induction l as [|a l IH]; simpl; [reflexivity|].
  destruct (f a); [discriminate|auto].
Qed.

Lemma mem_z_In (x : Z) (l : list Z) : mem_z x l = true <-> In x l.
Proof.
  unfold mem_z. rewrite existsb_exists. split.
  - intros (y & Hy & E). apply Z.eqb_eq in E. now subst.
  - intros H. exists x. split; [assumption|apply Z.eqb_refl].
Qed.

Lemma edge_eqb_eq (e1 e2 : Z * Z) : edge_eqb e1 e2 = true <-> e1 = e2.
Proof.
  destruct e1 as [a b], e2 as [c d]. unfold edge_eqb. simpl.
  rewrite andb_true_iff, !Z.eqb_eq. split.
  - intros [-> ->]. reflexivity.
  - intros E. inversion E. auto.
Qed.

Lemma existsb_edge_In (e : Z * Z) (l : list (Z * Z)) :
  existsb (edge_eqb e) l = true <-> In e l.
Proof.
  rewrite existsb_exists. split.
  - intros (y & Hy & E). apply edge_eqb_eq in E. now subst.
  - intros H. exists e. split; [assumption|now apply edge_eqb_eq].
Qed.

(** ** Rowid allocation *)

Lemma fold_max_ge (x : Z) (xs : list Z) :
  x <= fold_right Z.max x xs /\ Forall (fun y => y <= fold_right Z.max x xs) xs.
Proof.
  induction xs as [|a xs [IH1 IH2]]; simpl.
  - split; [lia|constructor].
  - split; [lia|]. constructor; [lia|].
    eapply Forall_impl; [|exact IH2]. simpl. intros; lia.
Qed.

Lemma next_id_gt (ids : list Z) : Forall (fun x => x < next_id ids) ids.
Proof.
  destruct ids as [|x xs]; simpl; [constructor|].
  destruct (fold_max_ge x xs) as [H1 H2].
  constructor; [lia|].
  eapply Forall_impl; [|exact H2]. simpl. intros; lia.
Qed.

Lemma next_id_fresh (ids : list Z) : ~ In (next_id ids) ids.
Proof.
  intros H. pose proof (next_id_gt ids) as G.
  rewrite Forall_forall in G. apply G in H. lia.
Qed.

Lemma sorted_snoc (l : list Z) (x : Z) :
  StronglySorted Z.lt l -> Forall (fun y => y < x) l ->
  StronglySorted Z.lt (l ++ [x]).
Proof.
  induction 1 as [|a l Hs IH Ha]; simpl; intros Hx.
  - repeat constructor.
  - inversion Hx; subst. constructor; [auto|].
    apply Forall_app. split; [assumption|]. repeat constructor. assumption.
Qed.

Lemma sorted_NoDup (l : list Z) : StronglySorted Z.lt l -> NoDup l.
Proof.
  induction 1 as [|a l Hs IH Ha]; constructor; [|assumption].
  intros Hin. rewrite Forall_forall in Ha. apply Ha in Hin. lia.
Qed.

Lemma sorted_filter {A} (f : A -> Z) (p : A -> bool) (l : list A) :
  StronglySorted Z.lt (map f l) -> StronglySorted Z.lt (map f (filter p l)).
Proof.
  induction l as [|a l IH]; simpl; intros H; [constructor|].
  apply StronglySorted_inv in H. destruct H as [Hs Ha].
  destruct (p a); simpl; [|auto].
  constructor; [auto|].
  rewrite Forall_forall in *. intros y Hy. apply Ha.
  apply in_map_iff in Hy. destruct Hy as (b & <- & Hb).
  apply filter_In in Hb. apply in_map. tauto.
Qed.

(** ** The storage layer *)

Lemma NoDup_snoc {A} (l : list A) (x : A) :
  NoDup l -> ~ In x l -> NoDup (l ++ [x]).
Proof.
  intros Hl Hx. apply NoDup_app; [assumption|repeat constructor; auto|].
  intros a Ha [<-|[]]. contradiction.
Qed.

Lemma insert_genre_fresh (db : Db) (name : string) :
  get_genre_by_name db name = None ->
  insert_genre db name =
    Ok (set_genres_tbl db
          (genres_tbl db ++ [mkGenre (next_id (map genre_id (genres_tbl db))) name]),
        mkGenre (next_id (map genre_id (genres_tbl db))) name).
Proof.
  intros E. unfold insert_genre, get_genre_by_name in *.
  now rewrite (find_none_existsb _ _ E).
Qed.

Lemma genre_keys_snoc (tbl : list Genre) (name : string) :
  NoDup (map genre_id tbl) -> NoDup (map genre_name tbl) ->
  find (fun g => String.eqb (genre_name g) name) tbl = None ->
  NoDup (map genre_id (tbl ++ [mkGenre (next_id (map genre_id tbl)) name])) /\
  NoDup (map genre_name (tbl ++ [mkGenre (next_id (map genre_id tbl)) name])).
Proof.
  intros Hi Hn E. rewrite !map_app. simpl. split; apply NoDup_snoc; auto.
  - apply next_id_fresh.
  - exact (find_key_none genre_name String.eqb String.eqb_eq _ _ E).
Qed.

Lemma insert_edges_inv (es : list (Z * Z)) : forall db db',
  insert_edges db es = Ok db' ->
  records db' = records db /\ genres_tbl db' = genres_tbl db /\
  tracks_tbl db' = tracks_tbl db /\
  record_genre db' = record_genre db ++ es /\
  NoDup es /\ (forall e, In e es -> ~ In e (record_genre db)).
Proof.
  induction es as [|e es IH]; simpl; intros db db' H.
  - inversion H; subst. rewrite app_nil_r.
    repeat split; auto. constructor.
  - unfold insert_edge in H.
    destruct (existsb (edge_eqb e) (record_genre db)) eqn:E; simpl in H;
      [discriminate|].
    apply IH in H. simpl in H. destruct H as (H1 & H2 & H3 & H4 & H5 & H6).
    assert (He : ~ In e (record_genre db)).
    { intros Hin. apply existsb_edge_In in Hin. congruence. }
    repeat split; auto.
    + rewrite H4, <- app_assoc. reflexivity.
    + constructor; [|assumption].
      intros Hin. apply (H6 e Hin). apply in_or_app. right. now left.
    + intros x [<-|Hx]; [assumption|].
      intros Hin. apply (H6 x Hx). apply in_or_app. now left.
Qed.

Lemma insert_edges_total (es : list (Z * Z)) : forall db,
  NoDup es -> (forall e, In e es -> ~ In e (record_genre db)) ->
  exists db', insert_edges db es = Ok db'.
Proof.
  induction es as [|e es IH]; simpl; intros db Hnd Hfresh.
  - eauto.
  - inversion Hnd as [|? ? He Hes]; subst.
    unfold insert_edge.
    destruct (existsb (edge_eqb e) (record_genre db)) eqn:E.
    + apply existsb_edge_In in E. exfalso. apply (Hfresh e); auto.
    + simpl. apply IH; [assumption|].
      simpl. intros x Hx Hin. apply in_app_or in Hin.
      destruct Hin as [Hin|[<-|[]]]; [apply (Hfresh x); auto|contradiction].
Qed.



(** ** Loading relationships *)

Lemma in_genres_of (db : Db) (rid : Z) (g : Genre) :
  NoDup (map genre_id (genres_tbl db)) ->
  In g (genres_of db rid) <->
  In g (genres_tbl db) /\ In (rid, genre_id g) (record_genre db).
Proof.
  intros Hnd. unfold genres_of, genre_by_id. rewrite in_flat_map. split.
  - intros ([r gid] & He & Hg). simpl in Hg.
    destruct (r =? rid) eqn:Er; [|contradiction].
    apply Z.eqb_eq in Er. subst r.
    destruct (find _ _) as [g'|] eqn:Ef; [|contradiction].
    destruct Hg as [<-|[]].
    apply (find_key_in genre_id Z.eqb Z.eqb_eq) in Ef.
    destruct Ef as [Hin <-]. auto.
  - intros [Hin He]. exists (rid, genre_id g). split; [assumption|].
    simpl. rewrite Z.eqb_refl.
    rewrite (find_key genre_id Z.eqb Z.eqb_eq _ _ Hnd Hin). now left.
Qed.

Lemma genres_of_NoDup (db : Db) (rid : Z) :
  NoDup (record_genre db) -> NoDup (genres_of db rid).
Proof.
  unfold genres_of, genre_by_id.
  induction (record_genre db) as [|[r gid] es IH]; simpl; intros Hnd;
    [constructor|].
  inversion Hnd as [|? ? He Hes]; subst.
  destruct (r =? rid) eqn:Er; simpl; [|auto].
  destruct (find _ _) as [g|] eqn:Ef; simpl; [|auto].
  constructor; [|auto].
  intros Hin. apply in_flat_map in Hin.
  destruct Hin as ([r' gid'] & He' & Hg). simpl in Hg.
  destruct (r' =? rid) eqn:Er'; [|contradiction].
  destruct (find (fun g0 => genre_id g0 =? gid') _) as [g'|] eqn:Ef';
    [|contradiction].
  destruct Hg as [->|[]].
  apply (find_key_in genre_id Z.eqb Z.eqb_eq) in Ef, Ef'.
  apply Z.eqb_eq in Er, Er'.
  destruct Ef as [_ <-], Ef' as [_ <-]. subst. contradiction.
Qed.

Lemma genres_of_same (db db' : Db) (rid : Z) :
  genres_tbl db' = genres_tbl db -> record_genre db' = record_genre db ->
  genres_of db' rid = genres_of db rid.
Proof.
  unfold genres_of, genre_by_id. intros -> ->. reflexivity.
Qed.

Lemma genres_of_other (db db' : Db) (rid other : Z) :
  genres_tbl db' = genres_tbl db ->
  record_genre db' = filter (fun e => negb (fst e =? rid)) (record_genre db) ->
  other <> rid ->
  genres_of db' other = genres_of db other.
Proof.
  unfold genres_of, genre_by_id. intros -> -> Hne.
  induction (record_genre db) as [|[r gid] es IH]; simpl; [reflexivity|].
  destruct (r =? rid) eqn:Er; simpl.
  - apply Z.eqb_eq in Er. subst r.
    destruct (rid =? other) eqn:Eo; [apply Z.eqb_eq in Eo; congruence|].
    simpl. assumption.
  - rewrite IH. reflexivity.
Qed.

Lemma tracks_of_other (l : list Track) (rid other : Z) :
  other <> rid ->
  filter (fun t => track_record_id t =? other)
         (filter (fun t => negb (track_record_id t =? rid)) l) =
  filter (fun t => track_record_id t =? other) l.
Proof.
  intros Hne. induction l as [|t l IH]; simpl; [reflexivity|].
  destruct (track_record_id t =? rid) eqn:Er; simpl.
  - apply Z.eqb_eq in Er. rewrite Er.
    destruct (rid =? other) eqn:Eo; [apply Z.eqb_eq in Eo; congruence|].
    assumption.
  - rewrite IH. reflexivity.
Qed.

Lemma filter_none {A} (p : A -> bool) (l : list A) :
  (forall x, In x l -> p x = false) -> filter p l = [].
Proof.
  induction l as [|a l IH]; simpl; intros H; [reflexivity|].
  rewrite (H a (or_introl eq_refl)). auto.
Qed.

Lemma filter_all {A} (p : A -> bool) (l : list A) :
  (forall x, In x l -> p x = true) -> filter p l = l.
Proof.
  induction l as [|a l IH]; simpl; intros H; [reflexivity|].
  rewrite (H a (or_introl eq_refl)). f_equal. auto.
Qed.

(** ** The track loop of [create_record] *)

Lemma insert_tracks_spec (rid : Z) (l : list TrackCreate) : forall db,
  let db' := fold_left (fun d track_data => insert_track d rid track_data) l db in
  records db' = records db /\ genres_tbl db' = genres_tbl db /\
  record_genre db' = record_genre db /\
  exists new, tracks_tbl db' = tracks_tbl db ++ new /\
              map track_data new = l /\
              Forall (fun t => track_record_id t = rid) new.
Proof.
  induction l as [|t l IH]; simpl; intros db.
  - repeat split; auto. exists []. rewrite app_nil_r. auto.
  - destruct (IH (insert_track db rid t)) as (H1 & H2 & H3 & new & H4 & H5 & H6).
    simpl in *. repeat split; auto.
    eexists (_ :: new). rewrite H4, <- app_assoc. simpl. split; [reflexivity|].
    split.
    + unfold track_data at 1. simpl. destruct t. simpl. f_equal. assumption.
    + constructor; auto.
Qed.

(** ** The genre loop of [create_record] *)

Lemma create_genres_spec (names : list string) : forall db acc,
  NoDup (map genre_id (genres_tbl db)) ->
  NoDup (map genre_name (genres_tbl db)) ->
  exists db' new ext,
    create_genres db names acc = Ok (db', acc ++ new) /\
    records db' = records db /\ tracks_tbl db' = tracks_tbl db /\
    record_genre db' = record_genre db /\
    genres_tbl db' = genres_tbl db ++ ext /\
    NoDup (map genre_id (genres_tbl db')) /\
    NoDup (map genre_name (genres_tbl db')) /\
    map genre_name new = names /\
    Forall (fun g => In g (genres_tbl db')) new.
Proof.
  induction names as [|n rest IH]; simpl; intros db acc Hi Hn.
  - exists db, [], []. rewrite !app_nil_r. repeat split; auto.
  - destruct (get_genre_by_name db n) as [g|] eqn:E; simpl.
    + destruct (IH db (acc ++ [g]) Hi Hn)
        as (db' & new & ext & H0 & H1 & H2 & H3 & H4 & H5 & H6 & H7 & H8).
      exists db', (g :: new), ext. rewrite H0, <- app_assoc. simpl.
      apply (find_key_in genre_name String.eqb String.eqb_eq) in E.
      destruct E as [Hin Hname].
      repeat split; auto.
      * now rewrite Hname, H7.
      * constructor; [|assumption]. rewrite H4. apply in_or_app. now left.
    + rewrite (insert_genre_fresh _ _ E). simpl.
      set (g := mkGenre (next_id (map genre_id (genres_tbl db))) n).
      destruct (genre_keys_snoc (genres_tbl db) n Hi Hn E) as [Hi' Hn']. fold g in Hi', Hn'.
      destruct (IH (set_genres_tbl db (genres_tbl db ++ [g])) (acc ++ [g]) Hi' Hn')
        as (db' & new & ext & H0 & H1 & H2 & H3 & H4 & H5 & H6 & H7 & H8).
      simpl in *.
      exists db', (g :: new), (g :: ext). rewrite H0, <- app_assoc. simpl.
      repeat split; auto.
      * rewrite H4, <- app_assoc. reflexivity.
      * now rewrite H7.
      * constructor; [|assumption]. rewrite H4.
        apply in_or_app. left. apply in_or_app. right. now left.
Qed.

(** Distinct names resolve to distinct genre ids, and conversely. *)
Lemma resolved_ids_NoDup (tbl new : list Genre) :
  NoDup (map genre_id tbl) -> Forall (fun g => In g tbl) new ->
  NoDup (map genre_name new) -> NoDup (map genre_id new).
Proof.
  intros Hi Hin Hn. apply NoDup_map_NoDup_ForallPairs.
  - intros a b Ha Hb E. rewrite Forall_forall in Hin.
    apply (key_inj genre_id tbl); auto.
  - eapply NoDup_map_inv; eauto.
Qed.

Lemma resolved_names_NoDup (tbl new : list Genre) :
  NoDup (map genre_name tbl) -> Forall (fun g => In g tbl) new ->
  NoDup (map genre_id new) -> NoDup (map genre_name new).
Proof.
  intros Hi Hin Hn. apply NoDup_map_NoDup_ForallPairs.
  - intros a b Ha Hb E. rewrite Forall_forall in Hin.
    apply (key_inj genre_name tbl); auto.
  - eapply NoDup_map_inv; eauto.
Qed.

Lemma NoDup_map_pair (rid : Z) (l : list Z) :
  NoDup (map (pair rid) l) <-> NoDup l.
Proof.
  split.
  - apply NoDup_map_inv.
  - intros H. apply NoDup_map_NoDup_ForallPairs; [|assumption].
    intros a b _ _ E. now inversion E.
Qed.

(** ** [create_record] *)

Lemma create_genres_phase (db : Db) (record : RecordCreate) :
  match rc_genres record with
  | Some (n :: ns) => create_genres db (n :: ns) []
  | _ => Ok (db, [])
  end = create_genres db (input_genres record) [].
Proof.
  unfold input_genres. destruct (rc_genres record) as [[|n ns]|]; reflexivity.
Qed.

Lemma insert_tracks_phase (db : Db) (record : RecordCreate) (rid : Z) :
  match rc_tracks record with
  | Some track_list =>
      fold_left (fun d track_data => insert_track d rid track_data) track_list db
  | None => db
  end = fold_left (fun d track_data => insert_track d rid track_data)
                  (input_tracks record) db.
Proof.
  unfold input_tracks. destruct (rc_tracks record); reflexivity.
Qed.

(** What a successful [create_record] did to the four tables. *)
Lemma create_record_inv (db : Db) (record : RecordCreate) (now : date)
      (db' : Db) (r : RecordObj) :
  wf db -> create_record db record now = Ok (db', r) ->
  exists ext new_genres new_tracks,
    r = load db' (create_row record (next_id (map id (records db))) now) /\
    records db' =
      records db ++ [create_row record (next_id (map id (records db))) now] /\
    genres_tbl db' = genres_tbl db ++ ext /\
    tracks_tbl db' = tracks_tbl db ++ new_tracks /\
    record_genre db' =
      record_genre db
      ++ map (fun g => (next_id (map id (records db)), genre_id g)) new_genres /\
    map genre_name new_genres = input_genres record /\
    Forall (fun g => In g (genres_tbl db')) new_genres /\
    NoDup (map genre_id new_genres) /\
    map track_data new_tracks = input_tracks record /\
    Forall (fun t => track_record_id t = next_id (map id (records db))) new_tracks /\
    NoDup (map genre_id (genres_tbl db')) /\
    NoDup (map genre_name (genres_tbl db')).
Proof.
  intros W H. unfold create_record in H.
  rewrite create_genres_phase in H.
  destruct (create_genres_spec (input_genres record) db []
              (wf_genre_ids W) (wf_genre_names W))
    as (db1 & new & ext & H0 & H1 & H2 & H3 & H4 & H5 & H6 & H7 & H8).
  rewrite H0 in H. simpl in H. rewrite H1 in H.
  set (rid := next_id (map id (records db))) in *.
  destruct (insert_edges _ _) as [db3|e] eqn:E; simpl in H; [|discriminate].
  apply insert_edges_inv in E. simpl in E.
  destruct E as (E1 & E2 & E3 & E4 & E5 & E6).
  rewrite insert_tracks_phase in H.
  destruct (insert_tracks_spec rid (input_tracks record) db3)
    as (T1 & T2 & T3 & newt & T4 & T5 & T6).
  inversion H; subst db' r; clear H.
  exists ext, new, newt.
  rewrite T1, T2, T3, T4, E1, E2, E3, E4, H2, H3.
  repeat split; auto.
  - apply NoDup_map_pair with (rid := rid).
    rewrite map_map. assumption.
Qed.

Lemma create_record_total (db : Db) (record : RecordCreate) (now : date) :
  wf db -> NoDup (input_genres record) ->
  exists db' r, create_record db record now = Ok (db', r).
Proof.
  intros W Hnd. unfold create_record.
  rewrite create_genres_phase.
  destruct (create_genres_spec (input_genres record) db []
              (wf_genre_ids W) (wf_genre_names W))
    as (db1 & new & ext & H0 & H1 & H2 & H3 & H4 & H5 & H6 & H7 & H8).
  rewrite H0. simpl. rewrite H1.
  set (rid := next_id (map id (records db))).
  destruct (@insert_edges_total
              (map (fun g => (rid, genre_id g)) new)
              (set_records db1 (records db ++ [create_row record rid now])))
    as [db3 E].
  - rewrite <- (map_map genre_id (pair rid)). apply NoDup_map_pair.
    apply (resolved_ids_NoDup (genres_tbl db1)); auto.
    rewrite H7. assumption.
  - simpl. rewrite H3. intros e He Hin.
    apply in_map_iff in He. destruct He as (g & <- & _).
    apply (wf_edge_record W) in Hin. simpl in Hin.
    now apply next_id_fresh in Hin.
  - rewrite E. simpl. eauto.
Qed.


Lemma genres_join_fresh (tbl : list Genre) (rid : Z) (es : list (Z * Z)) :
  (forall e, In e es -> fst e <> rid) ->
  flat_map (fun e =>
              if fst e =? rid
              then match find (fun g => genre_id g =? snd e) tbl with
                   | Some g => [g]
                   | None => []
                   end
              else []) es = [].
Proof.
  induction es as [|e es IH]; simpl; intros H; [reflexivity|].
  destruct (fst e =? rid) eqn:E.
  - apply Z.eqb_eq in E. exfalso. apply (H e); auto.
  - simpl. auto.
Qed.

Lemma genres_join_new (tbl : list Genre) (rid : Z) (new : list Genre) :
  NoDup (map genre_id tbl) -> Forall (fun g => In g tbl) new ->
  flat_map (fun e =>
              if fst e =? rid
              then match find (fun g => genre_id g =? snd e) tbl with
                   | Some g => [g]
                   | None => []
                   end
              else []) (map (fun g => (rid, genre_id g)) new) = new.
Proof.
  intros Hnd. induction 1 as [|g new Hg Hnew IH]; simpl; [reflexivity|].
  rewrite Z.eqb_refl, (find_key genre_id Z.eqb Z.eqb_eq _ _ Hnd Hg).
  simpl. f_equal. assumption.
Qed.

Lemma find_record_snoc (l : list RecordRow) (r : RecordRow) :
  ~ In (id r) (map id l) ->
  find (fun x => id x =? id r) (l ++ [r]) = Some r.
Proof.
  intros H. rewrite find_app_r.
  - simpl. now rewrite Z.eqb_refl.
  - exact (find_key_absent id Z.eqb Z.eqb_eq _ _ H).
Qed.

Lemma create_record_wf (db : Db) (record : RecordCreate) (now : date)
      (db' : Db) (r : RecordObj) :
  wf db -> create_record db record now = Ok (db', r) -> wf db'.
Proof.
  intros W H.
  destruct (create_record_inv _ _ W H)
    as (ext & ng & nt & Hr & H1 & H2 & H3 & H4 & H5 & H6 & H7 & H8 & H9 & H10 & H11).
  set (rid := next_id (map id (records db))) in *.
  assert (Hids : map id (records db') = map id (records db) ++ [rid]).
  { rewrite H1, map_app. reflexivity. }
  constructor; auto.
  - rewrite Hids. apply sorted_snoc; [apply (wf_records W)|apply next_id_gt].
  - rewrite H4. apply NoDup_app; [apply (wf_edges W)| |].
    + rewrite <- (map_map genre_id (pair rid)). now apply NoDup_map_pair.
    + intros e He Hn. apply in_map_iff in Hn. destruct Hn as (g & <- & _).
      apply (wf_edge_record W) in He. simpl in He.
      now apply next_id_fresh in He.
  - intros e He. rewrite Hids. rewrite H4 in He. apply in_app_or in He.
    apply in_or_app. destruct He as [He|He].
    + left. now apply (wf_edge_record W).
    + right. apply in_map_iff in He. destruct He as (g & <- & _). now left.
  - intros e He. rewrite H4 in He. apply in_app_or in He.
    destruct He as [He|He].
    + rewrite H2, map_app. apply in_or_app. left. now apply (wf_edge_genre W).
    + apply in_map_iff in He. destruct He as (g & <- & Hg). simpl.
      rewrite Forall_forall in H6. apply in_map. auto.
  - intros t Ht. rewrite Hids. rewrite H3 in Ht. apply in_app_or in Ht.
    apply in_or_app. destruct Ht as [Ht|Ht].
    + left. now apply (wf_track_record W).
    + right. rewrite Forall_forall in H9. rewrite (H9 t Ht). now left.
Qed.

Lemma create_record_loaded (db : Db) (record : RecordCreate) (now : date)
      (db' : Db) (r : RecordObj) :
  wf db -> create_record db record now = Ok (db', r) ->
  row r = create_row record (next_id (map id (records db))) now /\
  get_record db' (id (row r)) = Some r /\
  map genre_name (genres r) = input_genres record /\
  NoDup (map genre_id (genres r)) /\
  Forall (fun g => In g (genres_tbl db')) (genres r) /\
  map track_data (tracks r) = input_tracks record /\
  Forall (fun t => track_record_id t = id (row r)) (tracks r).
Proof.
  intros W H.
  destruct (create_record_inv _ _ W H)
    as (ext & ng & nt & Hr & H1 & H2 & H3 & H4 & H5 & H6 & H7 & H8 & H9 & H10 & H11).
  set (rid := next_id (map id (records db))) in *.
  assert (Hg : genres_of db' rid = ng).
  { unfold genres_of, genre_by_id. rewrite H4, flat_map_app.
    rewrite genres_join_fresh, genres_join_new; auto.
    intros e He E. apply (wf_edge_record W) in He. rewrite E in He.
    now apply next_id_fresh in He. }
  assert (Ht : tracks_of db' rid = nt).
  { unfold tracks_of. rewrite H3, filter_app, filter_none, filter_all; auto.
    - intros t Hin. rewrite Forall_forall in H9. apply Z.eqb_eq. auto.
    - intros t Hin. apply Z.eqb_neq. intros E.
      apply (wf_track_record W) in Hin. rewrite E in Hin.
      now apply next_id_fresh in Hin. }
  subst r. simpl. rewrite Hg, Ht. repeat split; auto.
  unfold get_record, find_record. rewrite H1.
  change rid with (id (create_row record rid now)) at 1.
  rewrite find_record_snoc; [reflexivity|].
  simpl. apply next_id_fresh.
Qed.

(** ** Flushing a genre collection *)

Lemma edge_in_dec (e : Z * Z) (l : list (Z * Z)) : In e l \/ ~ In e l.
Proof.
  destruct (existsb (edge_eqb e) l) eqn:E.
  - left. now apply existsb_edge_In.
  - right. intros H. apply existsb_edge_In in H. congruence.
Qed.

Lemma in_orig (rid g : Z) (es : list (Z * Z)) :
  In g (map snd (filter (fun e => fst e =? rid) es)) <-> In (rid, g) es.
Proof.
  rewrite in_map_iff. split.
  - intros ([r g'] & <- & H). apply filter_In in H. simpl in H.
    destruct H as [H E]. apply Z.eqb_eq in E. now subst.
  - intros H. exists (rid, g). split; [reflexivity|].
    apply filter_In. simpl. now rewrite Z.eqb_refl.
Qed.

Lemma sync_genres_inv (db : Db) (rid : Z) (cur : list Z) (db' : Db) :
  sync_genres db rid cur = Ok db' ->
  records db' = records db /\ genres_tbl db' = genres_tbl db /\
  tracks_tbl db' = tracks_tbl db /\
  (forall e, In e (record_genre db') <->
             (fst e <> rid /\ In e (record_genre db)) \/
             (fst e = rid /\ In (snd e) cur)) /\
  (NoDup (record_genre db) -> NoDup (record_genre db')).
Proof.
  unfold sync_genres. intros H. apply insert_edges_inv in H. simpl in H.
  destruct H as (H1 & H2 & H3 & H4 & H5 & H6).
  repeat split; auto.
  - rewrite H4, in_app_iff, filter_In, in_map_iff.
    intros [[Hin Hk]|(g & <- & Hg)].
    + destruct (fst e =? rid) eqn:E; simpl in Hk.
      * right. apply Z.eqb_eq in E. apply mem_z_In in Hk. auto.
      * left. apply Z.eqb_neq in E. auto.
    + right. apply filter_In in Hg. simpl. tauto.
  - rewrite H4, in_app_iff, filter_In, in_map_iff.
    intros [[Hne Hin]|[He Hc]].
    + left. split; [assumption|].
      apply Z.eqb_neq in Hne. now rewrite Hne.
    + destruct (edge_in_dec e (record_genre db)) as [Hin|Hout].
      * left. split; [assumption|].
        apply mem_z_In in Hc. rewrite Hc. apply orb_true_r.
      * right. exists (snd e). destruct e as [r g]. simpl in *. subst r.
        split; [reflexivity|]. apply filter_In. split; [assumption|].
        destruct (mem_z g _) eqn:Em; [|reflexivity].
        apply mem_z_In, in_orig in Em. contradiction.
  - intros Hnd. rewrite H4. apply NoDup_app; auto.
    + now apply NoDup_filter.
    + intros e He Hn. exact (H6 e Hn He).
Qed.

Lemma sync_genres_wf (db : Db) (rid : Z) (cur : list Z) (db' : Db) :
  wf db -> In rid (map id (records db)) ->
  Forall (fun g => In g (map genre_id (genres_tbl db))) cur ->
  sync_genres db rid cur = Ok db' -> wf db'.
Proof.
  intros W Hrid Hcur H. apply sync_genres_inv in H.
  destruct H as (H1 & H2 & H3 & H4 & H5).
  constructor; rewrite ?H1, ?H2, ?H3; try apply W.
  - apply H5, W.
  - intros e He. apply H4 in He. destruct He as [[_ He]|[He _]].
    + now apply (wf_edge_record W).
    + now rewrite He.
  - intros e He. apply H4 in He. destruct He as [[_ He]|[_ He]].
    + now apply (wf_edge_genre W).
    + rewrite Forall_forall in Hcur. auto.
Qed.

Lemma wf_add_genre (db : Db) (name : string) :
  wf db -> get_genre_by_name db name = None ->
  wf (set_genres_tbl db
        (genres_tbl db ++ [mkGenre (next_id (map genre_id (genres_tbl db))) name])).
Proof.
  intros W E.
  destruct (genre_keys_snoc (genres_tbl db) name (wf_genre_ids W)
                            (wf_genre_names W) E) as [Hi Hn].
  constructor; simpl; try apply W; auto.
  intros e He. rewrite map_app. apply in_or_app. left.
  now apply (wf_edge_genre W).
Qed.

(** ** The genre loop of [update_record] *)

Lemma update_genres_inv (rid : Z) (names : list string) : forall db cur db' cur',
  update_genres db rid names cur = Ok (db', cur') ->
  wf db -> In rid (map id (records db)) ->
  Forall (fun i => In i (map genre_id (genres_tbl db))) cur ->
  wf db' /\ records db' = records db /\ tracks_tbl db' = tracks_tbl db /\
  (exists ext, genres_tbl db' = genres_tbl db ++ ext) /\
  (forall e, fst e <> rid ->
             (In e (record_genre db') <-> In e (record_genre db))) /\
  exists new, cur' = cur ++ map genre_id new /\
              map genre_name new = names /\
              Forall (fun g => In g (genres_tbl db')) new.
Proof.
  induction names as [|n rest IH]; simpl; intros db cur db' cur' H W Hrid Hcur.
  - inversion H; subst. split_and; auto.
    + exists []. now rewrite app_nil_r.
    + tauto.
    + exists []. simpl. rewrite app_nil_r. auto.
  - destruct (get_genre_by_name db n) as [g|] eqn:E; simpl in H.
    + apply (find_key_in genre_name String.eqb String.eqb_eq) in E.
      destruct E as [Hin Hname].
      apply IH in H; auto.
      * destruct H as (W' & H1 & H2 & [ext H3] & H4 & new & H5 & H6 & H7).
        split_and; eauto.
        exists (g :: new). simpl. rewrite H5, <- app_assoc. simpl.
        split_and; [reflexivity|congruence|].
        constructor; [|assumption]. rewrite H3. apply in_or_app. now left.
      * apply Forall_app. split; [assumption|].
        repeat constructor. now apply in_map.
    + destruct (sync_genres db rid cur) as [dbs|ex] eqn:Es; simpl in H;
        [|discriminate].
      assert (Ws : wf dbs) by (eapply sync_genres_wf; eauto).
      apply sync_genres_inv in Es. destruct Es as (S1 & S2 & S3 & S4 & _).
      assert (E' : get_genre_by_name dbs n = None).
      { unfold get_genre_by_name in *. now rewrite S2. }
      rewrite (insert_genre_fresh _ _ E') in H. simpl in H.
      set (g := mkGenre (next_id (map genre_id (genres_tbl dbs))) n) in *.
      apply IH in H.
      * simpl in H.
        destruct H as (W' & H1 & H2 & [ext H3] & H4 & new & H5 & H6 & H7).
        split_and; auto; try congruence.
        -- exists (g :: ext). rewrite H3, S2, <- app_assoc. reflexivity.
        -- intros e Hne. rewrite (H4 e Hne). simpl. rewrite S4. tauto.
        -- exists (g :: new). simpl. rewrite H5, <- app_assoc. simpl.
           split_and; [reflexivity|congruence|].
           constructor; [|assumption]. rewrite H3.
           apply in_or_app. left. apply in_or_app. right. now left.
      * now apply wf_add_genre.
      * simpl. now rewrite S1.
      * simpl. rewrite map_app. apply Forall_app. split.
        -- eapply Forall_impl; [|exact Hcur]. simpl. intros a Ha.
           apply in_or_app. left. now rewrite S2.
        -- repeat constructor. apply in_or_app. right. now left.
Qed.

(** ** [update_record] *)

Lemma replace_genres_inv (db : Db) (rid : Z) (u : RecordUpdate) (db1 : Db)
      (cur : option (list Z)) :
  replace_genres db rid u = Ok (db1, cur) ->
  wf db -> In rid (map id (records db)) ->
  wf db1 /\ records db1 = records db /\ tracks_tbl db1 = tracks_tbl db /\
  match ru_genres u with
  | None => db1 = db /\ cur = None
  | Some None => False
  | Some (Some names) =>
      (exists ext, genres_tbl db1 = genres_tbl db ++ ext) /\
      (forall e, fst e <> rid ->
                 (In e (record_genre db1) <-> In e (record_genre db))) /\
      exists new, cur = Some (map genre_id new) /\
                  map genre_name new = names /\
                  Forall (fun g => In g (genres_tbl db1)) new
  end.
Proof.
  unfold replace_genres. intros H W Hrid.
  destruct (ru_genres u) as [[names|]|]; simpl in H.
  - destruct (update_genres db rid names []) as [[d c]|ex] eqn:E; simpl in H;
      [|discriminate].
    inversion H; subst d cur; clear H.
    apply update_genres_inv in E; auto.
    destruct E as (W' & H1 & H2 & H3 & H4 & new & H5 & H6 & H7).
    split_and; auto. exists new. simpl in H5. subst c. auto.
  - discriminate.
  - inversion H; subst. auto.
Qed.

Lemma replace_tracks_inv (db : Db) (rid : Z) (u : RecordUpdate) (db2 : Db) :
  replace_tracks db rid u = Ok db2 ->
  records db2 = records db /\ genres_tbl db2 = genres_tbl db /\
  record_genre db2 = record_genre db /\
  match ru_tracks u with
  | None => tracks_tbl db2 = tracks_tbl db
  | Some (Some []) =>
      tracks_tbl db2 =
        filter (fun t => negb (track_record_id t =? rid)) (tracks_tbl db)
  | _ => False
  end /\
  (wf db -> wf db2).
Proof.
  unfold replace_tracks. intros H.
  destruct (ru_tracks u) as [[[|t ts]|]|]; simpl in H; try discriminate;
    inversion H; subst; clear H; simpl; split_and; auto.
  intros W. constructor; simpl; try apply W.
  intros t Ht. apply filter_In in Ht. now apply (wf_track_record W).
Qed.

Lemma find_record_id (db : Db) (rid : Z) (r : RecordRow) :
  find_record db rid = Some r -> In r (records db) /\ id r = rid.
Proof.
  apply (find_key_in id Z.eqb Z.eqb_eq).
Qed.

Lemma map_id_replace (rid : Z) (new : RecordRow) (l : list RecordRow) :
  id new = rid ->
  map id (map (fun r => if id r =? rid then new else r) l) = map id l.
Proof.
  intros E. rewrite map_map. apply map_ext. intros r.
  destruct (id r =? rid) eqn:Er; [|reflexivity].
  apply Z.eqb_eq in Er. congruence.
Qed.

Lemma find_replace (rid : Z) (new old : RecordRow) (l : list RecordRow) :
  id new = rid -> find (fun r => id r =? rid) l = Some old ->
  find (fun r => id r =? rid)
       (map (fun r => if id r =? rid then new else r) l) = Some new.
Proof.
  intros E. induction l as [|r l IH]; simpl; [discriminate|].
  destruct (id r =? rid) eqn:Er.
  - intros _. rewrite E, Z.eqb_refl. reflexivity.
  - rewrite Er. assumption.
Qed.

Lemma wf_set_records (db : Db) (l : list RecordRow) :
  wf db -> map id l = map id (records db) -> wf (set_records db l).
Proof.
  intros W E. constructor; simpl; rewrite ?E; apply W.
Qed.

Lemma sync_genres_total (db : Db) (rid : Z) (cur : list Z) :
  NoDup cur -> exists db', sync_genres db rid cur = Ok db'.
Proof.
  intros Hnd. unfold sync_genres. apply insert_edges_total.
  - apply NoDup_map_pair. now apply NoDup_filter.
  - simpl. intros e He Hin. apply in_map_iff in He.
    destruct He as (g & <- & Hg). apply filter_In in Hg, Hin.
    destruct Hg as [_ Hg]. destruct Hin as [Hin _].
    apply negb_true_iff in Hg.
    apply in_orig, mem_z_In in Hin. congruence.
Qed.

Lemma update_genres_total (rid : Z) (names : list string) : forall db cg,
  wf db -> In rid (map id (records db)) ->
  Forall (fun g => In g (genres_tbl db)) cg ->
  NoDup (map genre_name cg ++ names) ->
  exists db' cur', update_genres db rid names (map genre_id cg) = Ok (db', cur').
Proof.
  induction names as [|n rest IH]; simpl; intros db cg W Hrid Hcg Hnd.
  - eauto.
  - assert (Hnd' : forall g, genre_name g = n ->
                             NoDup (map genre_name (cg ++ [g]) ++ rest)).
    { intros g <-. rewrite map_app, <- app_assoc. exact Hnd. }
    assert (Hcur : NoDup (map genre_id cg)).
    { apply (resolved_ids_NoDup (genres_tbl db)); auto; [apply W|].
      now apply NoDup_app_remove_r in Hnd. }
    assert (Hlast : forall g, map genre_id cg ++ [genre_id g] = map genre_id (cg ++ [g])).
    { intros g. now rewrite map_app. }
    destruct (get_genre_by_name db n) as [g|] eqn:E; simpl.
    + apply (find_key_in genre_name String.eqb String.eqb_eq) in E.
      destruct E as [Hin Hname].
      rewrite (Hlast g). apply IH; auto.
      apply Forall_app. split; [assumption|]. repeat constructor. assumption.
    + destruct (sync_genres_total db rid Hcur) as [dbs Es]. rewrite Es. simpl.
      assert (Ws : wf dbs).
      { apply sync_genres_wf with (db := db) (rid := rid) (cur := map genre_id cg);
          auto.
        apply Forall_forall. intros i Hi. apply in_map_iff in Hi.
        destruct Hi as (g & <- & Hg). rewrite Forall_forall in Hcg.
        apply in_map. auto. }
      apply sync_genres_inv in Es. destruct Es as (S1 & S2 & S3 & S4 & _).
      assert (E' : get_genre_by_name dbs n = None).
      { unfold get_genre_by_name in *. now rewrite S2. }
      rewrite (insert_genre_fresh _ _ E'). simpl.
      pose proof (Hlast (mkGenre (next_id (map genre_id (genres_tbl dbs))) n))
        as Hl.
      simpl in Hl. rewrite Hl. apply IH; auto.
      * now apply wf_add_genre.
      * simpl. now rewrite S1.
      * simpl. apply Forall_app. split.
        -- eapply Forall_impl; [|exact Hcg]. simpl. intros a Ha.
           apply in_or_app. left. now rewrite S2.
        -- repeat constructor. apply in_or_app. right. now left.
Qed.

(** [update_record] returns the updated record on every accepted input. *)
Lemma update_record_total (db : Db) (rid : Z) (u : RecordUpdate) (today utcnow : date)
      (r : RecordObj) :
  wf db -> get_record db rid = Some r -> update_accepted u ->
  exists db' r', update_record db rid u today utcnow = Ok (db', Some r').
Proof.
  intros W Hget (Ht & Ha & Hg & Htr).
  unfold get_record in Hget.
  destruct (find_record db rid) as [old|] eqn:Ef; [|discriminate].
  destruct (find_record_id _ _ Ef) as [Hold Hid].
  assert (Hrid : In rid (map id (records db))).
  { rewrite <- Hid. now apply in_map. }
  unfold update_record. rewrite Ef.
  assert (Hrest : forall db1 cur,
    wf db1 ->
    match cur with Some c => NoDup c | None => True end ->
    exists db' r',
      (db2 <- replace_tracks db1 rid u ;;
       new_title <- setattr_not_null (ru_title u) (title old) ;;
       new_artist <- setattr_not_null (ru_artist u) (artist old) ;;
       db3 <- match cur with
              | Some c => sync_genres db2 rid c
              | None => Ok db2
              end ;;
       Ok (set_records db3
             (map (fun x => if id x =? rid
                            then update_row old u new_title new_artist today utcnow
                            else x) (records db3)),
           Some (load (set_records db3
                         (map (fun x => if id x =? rid
                                        then update_row old u new_title new_artist today utcnow
                                        else x) (records db3)))
                      (update_row old u new_title new_artist today utcnow))))
      = Ok (db', Some r')).
  { intros db1 cur W1 Hc. unfold replace_tracks.
    assert (Hs : forall d, exists db3,
               match cur with
               | Some c => sync_genres d rid c
               | None => Ok d
               end = Ok db3).
    { intros d. destruct cur as [c|]; [now apply sync_genres_total|eauto]. }
    destruct (ru_title u) as [[x|]|]; [| congruence |];
      destruct (ru_artist u) as [[y|]|]; try congruence;
      destruct (ru_tracks u) as [[[|? ?]|]|]; try contradiction; simpl;
      match goal with
      | |- context [match cur with Some c => sync_genres ?d rid c | None => Ok ?d end] =>
          destruct (Hs d) as [db3 E3]; rewrite E3; simpl; eauto
      end. }
  unfold replace_genres.
  destruct (ru_genres u) as [[names|]|]; [| contradiction |].
  - destruct (@update_genres_total rid names db [] W Hrid) as (d & c & E);
      [constructor|exact Hg|].
    simpl in E. rewrite E. simpl.
    apply update_genres_inv in E; auto.
    destruct E as (W' & _ & _ & _ & _ & new & Hc & Hn & Hin).
    simpl in Hc. subst c.
    apply (Hrest d (Some (map genre_id new)) W').
    apply (resolved_ids_NoDup (genres_tbl d)); auto; [apply W'|].
    now rewrite Hn.
  - simpl. now apply (Hrest db None W).
Qed.

(** What a successful [update_record] on an existing record did. *)
Lemma update_record_inv (db : Db) (rid : Z) (u : RecordUpdate) (today utcnow : date)
      (db' : Db) (r' : RecordObj) :
  wf db -> update_record db rid u today utcnow = Ok (db', Some r') ->
  exists old t a,
    find_record db rid = Some old /\ id old = rid /\
    setattr_not_null (ru_title u) (title old) = Ok t /\
    setattr_not_null (ru_artist u) (artist old) = Ok a /\
    r' = load db' (update_row old u t a today utcnow) /\
    records db' =
      map (fun r => if id r =? rid then update_row old u t a today utcnow else r)
          (records db) /\
    wf db' /\
    match ru_tracks u with
    | None => tracks_tbl db' = tracks_tbl db
    | Some (Some []) =>
        tracks_tbl db' =
          filter (fun t => negb (track_record_id t =? rid)) (tracks_tbl db)
    | _ => False
    end /\
    match ru_genres u with
    | None => genres_tbl db' = genres_tbl db /\ record_genre db' = record_genre db
    | Some None => False
    | Some (Some names) =>
        (exists ext, genres_tbl db' = genres_tbl db ++ ext) /\
        (forall e, fst e <> rid ->
                   (In e (record_genre db') <-> In e (record_genre db))) /\
        exists new, map genre_name new = names /\
                    Forall (fun g => In g (genres_tbl db')) new /\
                    forall gid, In (rid, gid) (record_genre db') <->
                                In gid (map genre_id new)
    end.
Proof.
  intros W H. unfold update_record in H.
  destruct (find_record db rid) as [old|] eqn:Ef; [|discriminate].
  destruct (find_record_id _ _ Ef) as [Hold Hid].
  assert (Hrid : In rid (map id (records db))).
  { rewrite <- Hid. now apply in_map. }
  destruct (replace_genres db rid u) as [[db1 cur]|ex] eqn:Eg; simpl in H;
    [|discriminate].
  destruct (replace_tracks db1 rid u) as [db2|ex] eqn:Et; simpl in H;
    [|discriminate].
  destruct (setattr_not_null (ru_title u) (title old)) as [t|ex] eqn:Ett;
    simpl in H; [|discriminate].
  destruct (setattr_not_null (ru_artist u) (artist old)) as [a|ex] eqn:Ea;
    simpl in H; [|discriminate].
  apply replace_genres_inv in Eg; auto.
  destruct Eg as (W1 & G1 & G2 & G3).
  apply replace_tracks_inv in Et.
  destruct Et as (T1 & T2 & T3 & T4 & T5).
  specialize (T5 W1).
  set (new_record := update_row old u t a today utcnow) in *.
  assert (Hnew : id new_record = rid) by exact Hid.
  exists old, t, a.
  destruct (ru_genres u) as [[names|]|]; [| contradiction |].
  - destruct G3 as (Ge & Gf & new & -> & Gn & Gin).
    destruct (sync_genres db2 rid (map genre_id new)) as [db3|ex] eqn:Es;
      simpl in H; [|discriminate].
    inversion H; subst db' r'; clear H.
    assert (W3 : wf db3).
    { apply sync_genres_wf with (db := db2) (rid := rid)
                                (cur := map genre_id new); auto.
      - now rewrite T1, G1.
      - rewrite T2. apply Forall_forall. intros i Hi.
        apply in_map_iff in Hi. destruct Hi as (g & <- & Hg).
        rewrite Forall_forall in Gin. apply in_map. auto. }
    apply sync_genres_inv in Es. destruct Es as (S1 & S2 & S3 & S4 & S5).
    split_and; auto.
    + simpl. now rewrite S1, T1, G1.
    + apply wf_set_records; [assumption|]. now apply map_id_replace.
    + simpl. rewrite S3. destruct (ru_tracks u) as [[[|? ?]|]|]; auto;
        now rewrite T4, G2.
    + simpl. rewrite S2, T2. assumption.
    + simpl. intros e Hne. rewrite S4, T3, (Gf e Hne). tauto.
    + exists new. split_and; auto.
      * simpl. now rewrite S2, T2.
      * simpl. intros gid. rewrite S4. simpl. tauto.
  - destruct G3 as [-> ->]. simpl in H.
    inversion H; subst db' r'; clear H.
    split_and; auto.
    + simpl. now rewrite T1.
    + apply wf_set_records; [assumption|]. now apply map_id_replace.
Qed.

(** ** LIKE patterns and substrings *)


Lemma some_suffix_end (s : list ascii) : some_suffix (like []) s = true.
Proof.
  induction s as [|c s IH]; simpl; [reflexivity|assumption].
Qed.

Lemma like_percent (s : list ascii) : like ["%"%char] s = true.
Proof.
  simpl. apply some_suffix_end.
Qed.

Lemma like_percent_percent (s : list ascii) : like ["%"%char; "%"%char] s = true.
Proof.
  change (some_suffix (like ["%"%char]) s = true).
  destruct s; cbn [some_suffix]; now rewrite like_percent.
Qed.

Lemma containsb_some_suffix (q s : list ascii) :
  containsb q s = some_suffix (prefixb q) s.
Proof.
  induction s as [|c s IH]; simpl; [reflexivity|now rewrite IH].
Qed.





Lemma list_ascii_of_string_app (s1 s2 : string) :
  list_ascii_of_string (s1 ++ s2)%string =
  list_ascii_of_string s1 ++ list_ascii_of_string s2.
Proof.
  induction s1 as [|c s1 IH]; simpl; [reflexivity|now rewrite IH].
Qed.


Lemma prefixb_iff (q s : list ascii) :
  prefixb q s = true <-> exists b, s = q ++ b.
Proof.
  revert s. induction q as [|c q IH]; intros s; simpl.
  - split; eauto.
  - destruct s as [|d s].
    + split; [discriminate|]. intros [b Hb]. discriminate.
    + rewrite andb_true_iff, Ascii.eqb_eq, IH. split.
      * intros [-> [b ->]]. eauto.
      * intros [b Hb]. inversion Hb. eauto.
Qed.

(** [containsb] is containment as a contiguous run. *)
Lemma containsb_iff (q s : list ascii) :
  containsb q s = true <-> exists a b, s = a ++ q ++ b.
Proof.
  induction s as [|d s IH]; simpl.
  - rewrite orb_false_r, prefixb_iff. split.
    + intros [b Hb]. exists [], b. assumption.
    + intros (a & b & H). destruct a; simpl in H.
      * eauto.
      * discriminate.
  - rewrite orb_true_iff, prefixb_iff, IH. split.
    + intros [[b Hb]|(a & b & Hs)].
      * exists [], b. assumption.
      * exists (d :: a), b. simpl. now rewrite Hs.
    + intros (a & b & H). destruct a as [|x a]; simpl in H.
      * left. eauto.
      * right. inversion H. eauto.
Qed.

Lemma page_map {A B} (f : A -> B) (skip limit : Z) (l : list A) :
  map f (page skip limit l) = page skip limit (map f l).
Proof.
  unfold page. destruct (limit <? 0).
  - now rewrite skipn_map.
  - now rewrite skipn_map, firstn_map.
Qed.

Lemma page_nonneg {A} (skip limit : Z) (l : list A) :
  0 <= limit ->
  page skip limit l = firstn (Z.to_nat limit) (skipn (Z.to_nat skip) l).
Proof.
  intros H. unfold page. destruct (limit <? 0) eqn:E; [|reflexivity].
  apply Z.ltb_lt in E. lia.
Qed.


(** ** Well-formed stores *)

Lemma wf_empty : wf empty_db.
Proof.
  constructor; simpl; try constructor; contradiction.
Qed.

Lemma wf_db_one : wf db_one.
Proof.
  apply (@create_record_wf empty_db test_album 10 db_one
           (load db_one (create_row test_album 1 10)) wf_empty).
  reflexivity.
Qed.

Lemma wf_db_two : wf db_two.
Proof.
  apply (@create_record_wf db_one
           (with_genres (blank_create "Kind of Blue" "Miles Davis") ["Jazz"; "Rock"])
           11 db_two
           (load db_two
              (create_row (with_genres (blank_create "Kind of Blue" "Miles Davis")
                                       ["Jazz"; "Rock"]) 2 11))
           wf_db_one).
  reflexivity.
Qed.

Lemma delete_record_wf (db : Db) (rid : Z) (db' : Db) (b : bool) :
  wf db -> delete_record db rid = Ok (db', b) -> wf db'.
Proof.
  intros W H. unfold delete_record in H.
  destruct (find_record db rid); inversion H; subst; clear H; [|assumption].
  constructor; simpl; try apply W.
  - apply sorted_filter, W.
  - apply NoDup_filter, W.
  - intros e He. apply filter_In in He. destruct He as [He Hn].
    apply in_map_iff. apply (wf_edge_record W) in He.
    apply in_map_iff in He. destruct He as (x & Hr & Hin).
    exists x. split; [assumption|]. apply filter_In. split; [assumption|].
    now rewrite Hr.
  - intros e He. apply filter_In in He. now apply (wf_edge_genre W).
  - intros t Ht. apply filter_In in Ht. destruct Ht as [Ht Hn].
    apply in_map_iff. apply (wf_track_record W) in Ht.
    apply in_map_iff in Ht. destruct Ht as (x & Hr & Hin).
    exists x. split; [assumption|]. apply filter_In. split; [assumption|].
    now rewrite Hr.
Qed.

Lemma update_record_wf (db : Db) (rid : Z) (u : RecordUpdate) (today utcnow : date)
      (db' : Db) (o : option RecordObj) :
  wf db -> update_record db rid u today utcnow = Ok (db', o) -> wf db'.
Proof.
  intros W H. destruct o as [r'|].
  - destruct (update_record_inv _ _ _ _ W H)
      as (old & t & a & _ & _ & _ & _ & _ & _ & W' & _). exact W'.
  - unfold update_record in H.
    destruct (find_record db rid); [|inversion H; subst; assumption].
    destruct (replace_genres db rid u) as [[? ?]|]; simpl in H; [|discriminate].
    destruct (replace_tracks _ rid u); simpl in H; [|discriminate].
    destruct (setattr_not_null (ru_title u) _); simpl in H; [|discriminate].
    destruct (setattr_not_null (ru_artist u) _); simpl in H; [|discriminate].
    destruct o; [destruct (sync_genres _ _ _)|]; simpl in H; discriminate.
Qed.

(** * Properties of the specification *)

(** ** Search *)

(** C10: the empty query matches every record.  [search_records] with the
    query "" returns, as total, the number of rows of "records" and, as
    results, the offset/limit page of all records, which is what
    [get_records] returns for the same offset and limit. *)
Theorem search_empty_query (db : Db) (skip limit : Z) :
  results (search_records db "" skip limit) = page skip limit (all_records db) /\
  results (search_records db "" skip limit) = get_records db skip limit /\
  total (search_records db "" skip limit) = List.length (records db).
Proof.
  assert (F : filter (search_filter db "%%") (records db) = records db).
  { apply filter_all. intros r _. unfold search_filter, ilike.
    change (lower (list_ascii_of_string "%%")) with ["%"%char; "%"%char].
    now rewrite like_percent_percent. }
  unfold search_records, get_records, all_records.
  change ("%" ++ "" ++ "%")%string with "%%". cbn [results total].
  rewrite F, page_map. auto.
Qed.




(** ** Create *)


(** C7, as amended: a negative purchase_price is not refused.  For an
    input with non-empty title and artist and no repeated genre name,
    [create_record] on a well-formed store returns a record, whatever the
    sign of the price; the price is stored as given and [get_record]
    returns the record. *)
Theorem create_accepts_negative_price (db : Db) (record : RecordCreate)
        (now : date) (p : Q) :
  wf db -> rc_title record <> "" -> rc_artist record <> "" ->
  NoDup (input_genres record) ->
  rc_purchase_price record = Some p -> (p < 0)%Q ->
  exists db' r,
    create_record db record now = Ok (db', r) /\
    purchase_price (row r) = Some p /\
    get_record db' (id (row r)) = Some r.
Proof.
  intros W _ _ Hnd Hp _.
  destruct (create_record_total record now W Hnd) as (db' & r & H).
  exists db', r. split; [assumption|].
  destruct (create_record_loaded _ _ W H) as (Hr & Hg & _).
  split; [|assumption]. rewrite Hr. exact Hp.
Qed.

Lemma create_accepts_negative_price_witness :
  exists db' r,
    create_record empty_db
                  (with_price (blank_create "Test Album" "Test Artist") (Qmake (-1) 1))
                  10 = Ok (db', r) /\
    purchase_price (row r) = Some (Qmake (-1) 1) /\
    get_record db' (id (row r)) = Some r.
Proof.
  apply (@create_accepts_negative_price empty_db
           (with_price (blank_create "Test Album" "Test Artist") (Qmake (-1) 1))
           10 (Qmake (-1) 1) wf_empty).
  - discriminate.
  - discriminate.
  - constructor.
  - reflexivity.
  - reflexivity.
Defined.

(** C7, as stated, fails: with purchase_price -1, [create_record] raises
    nothing and the store gains a row. *)
Lemma create_negative_price_counterexample :
  create_record empty_db
                (with_price (blank_create "Test Album" "Test Artist") (Qmake (-1) 1))
                10 <> Raise ValidationError /\
  records (store_of (create_record empty_db
                       (with_price (blank_create "Test Album" "Test Artist")
                                   (Qmake (-1) 1)) 10))
    <> records empty_db.
Proof.
  split; vm_compute; discriminate.
Qed.

(** ** Update *)

(** C5: the code at the failing input.  Updating record 1 of [db_one] with
    one track raises AttributeError: the loop over [tracks_data] reads
    [track_data.title] on a dict.  Nothing is committed, so the two stored
    tracks of the record stay. *)
Theorem update_tracks_raises :
  update_record db_one 1
                (update_tracks_only [mkTrackCreate "New Track" (Some "B1") (Some "5:00")])
                11 11
  = Raise AttributeError /\
  List.length (tracks_of db_one 1) = 2%nat.
Proof.
  split; reflexivity.
Qed.

(** C1: create, then get.  On a well-formed store, an input without a
    repeated genre name is created; and whenever [create_record] returns a
    record, [get_record] at its id returns that same record, whose columns
    are those of the input (with created_at = updated_at = now), whose
    genres are exactly the genres named in the input, each once, and whose
    tracks are the tracks of the input, in input order. *)
Theorem create_then_get (db : Db) (record : RecordCreate) (now : date) :
  wf db ->
  (NoDup (input_genres record) ->
   exists db' r, create_record db record now = Ok (db', r)) /\
  (forall db' r,
     create_record db record now = Ok (db', r) ->
     get_record db' (id (row r)) = Some r /\
     row r = create_row record (id (row r)) now /\
     (forall n, In n (map genre_name (genres r)) <-> In n (input_genres record)) /\
     NoDup (map genre_name (genres r)) /\
     map track_data (tracks r) = input_tracks record /\
     Forall (fun t => track_record_id t = id (row r)) (tracks r)).
Proof.
  intros W. split.
  - intros Hnd. now apply create_record_total.
  - intros db' r H.
    pose proof (create_record_wf _ _ W H) as W'.
    destruct (create_record_loaded _ _ W H)
      as (Hr & Hg & Hn & Hid & Hin & Ht & Hrid).
    split_and; auto.
    + rewrite Hr at 1. rewrite Hr. reflexivity.
    + intros n. now rewrite Hn.
    + apply (resolved_names_NoDup (genres_tbl db')); auto. apply W'.
Qed.

Lemma create_then_get_witness :
  wf empty_db /\
  exists db' r,
    create_record empty_db test_album 10 = Ok (db', r) /\
    get_record db' (id (row r)) = Some r /\
    map track_data (tracks r) = input_tracks test_album.
Proof.
  split; [exact wf_empty|].
  destruct (@create_then_get empty_db test_album 10 wf_empty) as [Hex Hget].
  destruct Hex as (db' & r & H).
  - repeat constructor; simpl; intuition discriminate.
  - exists db', r. destruct (Hget db' r H) as (H1 & _ & _ & _ & H5 & _).
    auto.
Defined.




Lemma setattr_updated {A} (input : option A) (old : A) :
  field_updated input old (setattr input old).
Proof.
  destruct input; reflexivity.
Qed.

Lemma setattr_not_null_updated {A} (input : option (option A)) (old v : A) :
  setattr_not_null input old = Ok v -> field_updated input (Some old) (Some v).
Proof.
  destruct input as [[x|]|]; simpl; intros H; inversion H; reflexivity.
Qed.

(** C9: the code at the failing input.  Record 1 of [db_one] was created
    when [datetime.utcnow] gave day 10.  It is updated at a moment when
    [date.today] gives day 9 and [datetime.utcnow] still gives day 10, as
    they do west of UTC in the evening.  The update sets the title, keeps
    the artist, the genres and the tracks, and stamps the local date:
    updated_at is day 9, before created_at. *)
Theorem update_stamps_date_before_created_at :
  exists db' r',
    update_record db_one 1 (update_title_only "Second Pressing") 9 10
      = Ok (db', Some r') /\
    get_record db' 1 = Some r' /\
    title (row r') = "Second Pressing" /\
    artist (row r') = artist (row rec_one) /\
    genres r' = genres rec_one /\ tracks r' = tracks rec_one /\
    created_at (row r') = 10 /\ updated_at (row r') = 9 /\
    updated_at (row r') < created_at (row r').
Proof.
  eexists. eexists. split; [vm_compute; reflexivity|].
  split_and; reflexivity.
Qed.

(** ** Delete *)

Lemma find_filter_self (rid : Z) (l : list RecordRow) :
  find (fun r => id r =? rid) (filter (fun r => negb (id r =? rid)) l) = None.
Proof.
  induction l as [|r l IH]; simpl; [reflexivity|].
  destruct (id r =? rid) eqn:E; simpl; [assumption|].
  now rewrite E.
Qed.

Lemma find_filter_other (rid other : Z) (l : list RecordRow) :
  other <> rid ->
  find (fun r => id r =? other) (filter (fun r => negb (id r =? rid)) l) =
  find (fun r => id r =? other) l.
Proof.
  intros Hne. induction l as [|r l IH]; simpl; [reflexivity|].
  destruct (id r =? rid) eqn:E; simpl.
  - apply Z.eqb_eq in E.
    destruct (id r =? other) eqn:Eo; [apply Z.eqb_eq in Eo; congruence|].
    assumption.
  - destruct (id r =? other); auto.
Qed.

Lemma get_record_found (db : Db) (rid : Z) (r : RecordObj) :
  get_record db rid = Some r -> exists x, find_record db rid = Some x.
Proof.
  unfold get_record. destruct (find_record db rid); [eauto|discriminate].
Qed.

Lemma get_record_missing (db : Db) (rid : Z) :
  get_record db rid = None -> find_record db rid = None.
Proof.
  unfold get_record. destruct (find_record db rid); [discriminate|reflexivity].
Qed.

(** What [delete_record] does on an existing id. *)
Lemma delete_record_inv (db : Db) (rid : Z) (r : RecordObj) :
  get_record db rid = Some r ->
  exists db',
    delete_record db rid = Ok (db', true) /\
    get_record db' rid = None /\
    (forall t, In t (tracks_tbl db') <->
               In t (tracks_tbl db) /\ track_record_id t <> rid) /\
    (forall e, In e (record_genre db') <->
               In e (record_genre db) /\ fst e <> rid) /\
    genres_tbl db' = genres_tbl db /\
    (forall other, other <> rid -> get_record db' other = get_record db other).
Proof.
  intros H. apply get_record_found in H. destruct H as [x Hx].
  unfold delete_record. rewrite Hx. eexists. split; [reflexivity|].
  split_and.
  - unfold get_record, find_record. simpl. now rewrite find_filter_self.
  - intros t. simpl. rewrite filter_In, negb_true_iff, Z.eqb_neq. tauto.
  - intros e. simpl. rewrite filter_In, negb_true_iff, Z.eqb_neq. tauto.
  - reflexivity.
  - intros other Hne. unfold get_record, find_record. simpl.
    rewrite find_filter_other by assumption.
    destruct (find (fun r0 => id r0 =? other) (records db)) as [y|] eqn:Ey;
      [|reflexivity].
    apply (find_key_in id Z.eqb Z.eqb_eq) in Ey. destruct Ey as [_ Ey].
    simpl. unfold load. f_equal. f_equal.
    + rewrite Ey. now apply genres_of_other with (rid := rid).
    + rewrite Ey. unfold tracks_of. simpl. now apply tracks_of_other.
Qed.

(** C6: delete cascades.  Deleting an existing record removes its row
    ([get_record] then returns nothing), exactly the tracks and the
    association rows that carry its id, and no row of "genres"; every other
    record is returned as before, with the same genres and tracks. *)
Theorem delete_cascades (db : Db) (rid : Z) (r : RecordObj) :
  get_record db rid = Some r ->
  exists db',
    delete_record db rid = Ok (db', true) /\
    get_record db' rid = None /\
    tracks_of db' rid = [] /\
    (forall t, In t (tracks_tbl db') <->
               In t (tracks_tbl db) /\ track_record_id t <> rid) /\
    (forall e, In e (record_genre db') <->
               In e (record_genre db) /\ fst e <> rid) /\
    genres_tbl db' = genres_tbl db /\
    (forall other, other <> rid -> get_record db' other = get_record db other).
Proof.
  intros H. destruct (delete_record_inv _ _ H) as (db' & H1 & H2 & H3 & H4 & H5 & H6).
  exists db'. split_and; auto.
  unfold tracks_of. apply filter_none. intros t Ht.
  apply H3 in Ht. now apply Z.eqb_neq.
Qed.

Lemma delete_cascades_witness :
  get_record db_two 1 = Some (load db_two (create_row test_album 1 10)) /\
  exists db',
    delete_record db_two 1 = Ok (db', true) /\
    get_record db' 1 = None /\
    genres_tbl db' = genres_tbl db_two /\
    get_record db' 2 = get_record db_two 2.
Proof.
  split; [reflexivity|].
  destruct (@delete_cascades db_two 1 _ eq_refl)
    as (db' & H1 & H2 & _ & _ & _ & H5 & H6).
  exists db'. split_and; auto. apply H6. discriminate.
Defined.

(** C8: a missing id is a normal outcome.  On an id that is not stored,
    [update_record] returns None and [delete_record] returns False, and the
    store is unchanged; so deleting a stored id twice returns True and then
    False, the second call changes nothing, and the first one leaves every
    other record as it was. *)
Theorem missing_id_is_no_error (db : Db) (rid : Z) :
  (get_record db rid = None ->
   (forall u today utcnow, update_record db rid u today utcnow = Ok (db, None)) /\
   delete_record db rid = Ok (db, false)) /\
  (forall r, get_record db rid = Some r ->
   exists db',
     delete_record db rid = Ok (db', true) /\
     delete_record db' rid = Ok (db', false) /\
     (forall other, other <> rid -> get_record db' other = get_record db other)).
Proof.
  split.
  - intros H. apply get_record_missing in H.
    unfold update_record, delete_record. rewrite H. auto.
  - intros r H.
    destruct (delete_record_inv _ _ H) as (db' & H1 & H2 & _ & _ & _ & H6).
    exists db'. split_and; auto.
    apply get_record_missing in H2. unfold delete_record. now rewrite H2.
Qed.

Lemma missing_id_is_no_error_witness :
  get_record db_two 999 = None /\
  update_record db_two 999 (update_title_only "Nonexistent Album") 12 12
    = Ok (db_two, None) /\
  delete_record db_two 999 = Ok (db_two, false) /\
  exists db',
    delete_record db_two 1 = Ok (db', true) /\
    delete_record db' 1 = Ok (db', false) /\
    get_record db' 2 = get_record db_two 2.
Proof.
  destruct (missing_id_is_no_error db_two 999) as [[Hu Hd] _]; [reflexivity|].
  destruct (missing_id_is_no_error db_two 1) as [_ Hex].
  destruct (Hex _ eq_refl) as (db' & H1 & H2 & H3).
  split; [reflexivity|]. split; [apply Hu|]. split; [exact Hd|].
  exists db'. split_and; auto. apply H3. discriminate.
Defined.

(** * Further properties of the repository *)

(** ** Records that an operation does not name *)

Lemma flat_map_filter_skip {A B} (p : A -> bool) (f : A -> list B) (l : list A) :
  (forall x, p x = false -> f x = []) ->
  flat_map f (filter p l) = flat_map f l.
Proof.
  intros H. induction l as [|a l IH]; simpl; [reflexivity|].
  destruct (p a) eqn:E; simpl; rewrite IH; [reflexivity|].
  now rewrite (H a E).
Qed.

(** Dropping the association rows of [rid] does not change the genres
    another record joins to. *)
Lemma genres_of_filter_others (tbl : list Genre) (rid other : Z)
      (es : list (Z * Z)) :
  other <> rid ->
  flat_map (fun e =>
              if fst e =? other
              then match find (fun g => genre_id g =? snd e) tbl with
                   | Some g => [g]
                   | None => []
                   end
              else []) (filter (fun e => negb (fst e =? rid)) es) =
  flat_map (fun e =>
              if fst e =? other
              then match find (fun g => genre_id g =? snd e) tbl with
                   | Some g => [g]
                   | None => []
                   end
              else []) es.
Proof.
  intros Hne. apply flat_map_filter_skip. intros e He.
  apply negb_false_iff, Z.eqb_eq in He. rewrite He.
  destruct (rid =? other) eqn:E; [|reflexivity].
  apply Z.eqb_eq in E. congruence.
Qed.

(** Rows appended to "genres" do not change what an association row that
    already had its genre joins to. *)
Lemma genres_join_extend (tbl ext : list Genre) (other : Z) (es : list (Z * Z)) :
  (forall e, In e es -> In (snd e) (map genre_id tbl)) ->
  flat_map (fun e =>
              if fst e =? other
              then match find (fun g => genre_id g =? snd e) (tbl ++ ext) with
                   | Some g => [g]
                   | None => []
                   end
              else []) es =
  flat_map (fun e =>
              if fst e =? other
              then match find (fun g => genre_id g =? snd e) tbl with
                   | Some g => [g]
                   | None => []
                   end
              else []) es.
Proof.
  induction es as [|e es IH]; simpl; intros H; [reflexivity|].
  rewrite IH by auto. f_equal.
  destruct (fst e =? other); [|reflexivity].
  destruct (find (fun g => genre_id g =? snd e) tbl) as [g|] eqn:E.
  - now rewrite (find_app_l _ _ ext E).
  - exfalso. apply (find_key_none genre_id Z.eqb Z.eqb_eq) in E.
    apply E, H. now left.
Qed.

Lemma load_same_elsewhere (db db' : Db) (rid : Z) (ext : list Genre) (x : RecordRow) :
  wf db -> id x <> rid ->
  genres_tbl db' = genres_tbl db ++ ext ->
  filter (fun e => negb (fst e =? rid)) (record_genre db') =
    filter (fun e => negb (fst e =? rid)) (record_genre db) ->
  filter (fun t => track_record_id t =? id x) (tracks_tbl db') =
    filter (fun t => track_record_id t =? id x) (tracks_tbl db) ->
  load db' x = load db x.
Proof.
  intros W Hne Hg He Ht. unfold load, tracks_of. rewrite Ht. f_equal.
  unfold genres_of, genre_by_id.
  rewrite <- (genres_of_filter_others _ (record_genre db') Hne), He, Hg.
  rewrite genres_of_filter_others by assumption.
  apply genres_join_extend. apply (wf_edge_genre W).
Qed.

Lemma page_all {A} (l : list A) : page 0 (-1) l = l.
Proof.
  reflexivity.
Qed.

Lemma filter_others_new_edges (rid : Z) (es : list (Z * Z)) (new : list Genre) :
  filter (fun e => negb (fst e =? rid))
         (es ++ map (fun g => (rid, genre_id g)) new) =
  filter (fun e => negb (fst e =? rid)) es.
Proof.
  rewrite filter_app, (filter_none _ (map _ new)), app_nil_r; [reflexivity|].
  intros e He. apply in_map_iff in He. destruct He as (g & <- & _).
  simpl. now rewrite Z.eqb_refl.
Qed.

Lemma create_record_elsewhere (db : Db) (record : RecordCreate) (now : date)
      (db' : Db) (r : RecordObj) (x : RecordRow) :
  wf db -> create_record db record now = Ok (db', r) ->
  id x <> next_id (map id (records db)) ->
  load db' x = load db x.
Proof.
  intros W H Hne.
  destruct (create_record_inv _ _ W H)
    as (ext & ng & nt & _ & H1 & H2 & H3 & H4 & _ & _ & _ & _ & H9 & _).
  apply load_same_elsewhere
    with (rid := next_id (map id (records db))) (ext := ext); auto.
  - rewrite H4. apply filter_others_new_edges.
  - rewrite H3, filter_app, (filter_none _ nt), app_nil_r; [reflexivity|].
    intros t Ht. rewrite Forall_forall in H9. rewrite (H9 t Ht).
    apply Z.eqb_neq. congruence.
Qed.

(** X1.  The three mutators keep the constraints of the schema: sorted
    distinct record ids, distinct genre ids and names, distinct association
    rows, and every track and association row pointing to stored rows. *)
Theorem mutators_keep_schema_constraints (db : Db) :
  wf db ->
  (forall record now db' r,
     create_record db record now = Ok (db', r) -> wf db') /\
  (forall rid u today utcnow db' o,
     update_record db rid u today utcnow = Ok (db', o) -> wf db') /\
  (forall rid db' b,
     delete_record db rid = Ok (db', b) -> wf db').
Proof.
  intros W. split_and.
  - intros record now db' r H. exact (create_record_wf _ _ W H).
  - intros rid u today utcnow db' o H. exact (update_record_wf _ _ _ _ W H).
  - intros rid db' b H. exact (delete_record_wf _ W H).
Qed.

Lemma mutators_keep_schema_constraints_witness :
  wf db_one /\ wf db_two /\
  wf (store_of (update_record db_two 1 (update_genres_only ["Jazz"]) 12 12)) /\
  wf (store_of (delete_record db_two 1)).
Proof.
  destruct (mutators_keep_schema_constraints wf_empty) as (Hc & _ & _).
  assert (W1 : wf db_one).
  { apply (Hc test_album 10 db_one rec_one). reflexivity. }
  destruct (mutators_keep_schema_constraints W1) as (Hc1 & _ & _).
  assert (W2 : wf db_two).
  { eapply (Hc1 (with_genres (blank_create "Kind of Blue" "Miles Davis")
                             ["Jazz"; "Rock"]) 11 db_two).
    vm_compute. reflexivity. }
  destruct (mutators_keep_schema_constraints W2) as (_ & Hu & Hd).
  split_and; auto.
  - eapply (Hu 1 (update_genres_only ["Jazz"]) 12 12). vm_compute. reflexivity.
  - eapply (Hd 1). vm_compute. reflexivity.
Defined.

(** X2.  A successful create touches no stored record.  The new id is
    larger than every stored id, no row of "genres" is removed or changed,
    [get_record] answers as before at every other id, and the unpaged list
    is the previous list followed by the new record. *)
Theorem create_keeps_other_records (db : Db) (record : RecordCreate)
        (now : date) (db' : Db) (r : RecordObj) :
  wf db -> create_record db record now = Ok (db', r) ->
  Forall (fun x => x < id (row r)) (map id (records db)) /\
  (exists ext, genres_tbl db' = genres_tbl db ++ ext) /\
  (forall other, other <> id (row r) ->
                 get_record db' other = get_record db other) /\
  get_records db' 0 (-1) = get_records db 0 (-1) ++ [r].
Proof.
  intros W H.
  destruct (create_record_inv _ _ W H)
    as (ext & ng & nt & Hr & H1 & H2 & _).
  destruct (create_record_loaded _ _ W H) as (Hrow & _).
  assert (Hid : id (row r) = next_id (map id (records db))).
  { now rewrite Hrow. }
  pose proof (next_id_gt (map id (records db))) as Hgt.
  rewrite <- Hid in Hgt.
  split_and; eauto.
  - intros other Hne. unfold get_record, find_record. rewrite H1.
    destruct (find (fun x => id x =? other) (records db)) as [x|] eqn:E.
    + rewrite (find_app_l _ _ _ E). simpl. f_equal.
      apply (find_key_in id Z.eqb Z.eqb_eq) in E. destruct E as [_ E].
      apply create_record_elsewhere with (record := record) (now := now) (r := r);
        auto.
      rewrite <- Hid. congruence.
    + rewrite (find_app_r _ _ _ E). simpl.
      destruct (next_id (map id (records db)) =? other) eqn:Eo;
        [|reflexivity].
      apply Z.eqb_eq in Eo. congruence.
  - unfold get_records. rewrite !page_all, H1, map_app. simpl.
    rewrite <- Hr. f_equal. apply map_ext_in. intros x Hx.
    apply create_record_elsewhere with (record := record) (now := now) (r := r);
      auto.
    rewrite <- Hid. rewrite Forall_forall in Hgt.
    assert (id x < id (row r)) by (apply Hgt; now apply in_map). lia.
Qed.

Lemma create_keeps_other_records_witness :
  wf db_one /\
  exists r,
    create_record db_one
      (with_genres (blank_create "Kind of Blue" "Miles Davis") ["Jazz"; "Rock"]) 11
      = Ok (db_two, r) /\
    get_record db_two 1 = get_record db_one 1 /\
    get_records db_two 0 (-1) = get_records db_one 0 (-1) ++ [r].
Proof.
  split; [exact wf_db_one|].
  eexists. split; [vm_compute; reflexivity|].
  destruct (@create_keeps_other_records db_one
              (with_genres (blank_create "Kind of Blue" "Miles Davis") ["Jazz"; "Rock"])
              11 db_two _ wf_db_one eq_refl) as (_ & _ & Hget & Hlist).
  split; [apply Hget; discriminate|exact Hlist].
Defined.



Lemma filter_others_kept (rid : Z) (cur : list Z) (es : list (Z * Z)) :
  filter (fun e => negb (fst e =? rid))
         (filter (fun e => negb (fst e =? rid) || mem_z (snd e) cur) es) =
  filter (fun e => negb (fst e =? rid)) es.
Proof.
  induction es as [|e es IH]; simpl; [reflexivity|].
  destruct (fst e =? rid) eqn:E; destruct (mem_z (snd e) cur); simpl;
    rewrite ?E; simpl; rewrite ?IH; reflexivity.
Qed.

Lemma sync_genres_others (db : Db) (rid : Z) (cur : list Z) (db' : Db) :
  sync_genres db rid cur = Ok db' ->
  filter (fun e => negb (fst e =? rid)) (record_genre db') =
  filter (fun e => negb (fst e =? rid)) (record_genre db).
Proof.
  unfold sync_genres. intros H. apply insert_edges_inv in H. simpl in H.
  destruct H as (_ & _ & _ & H4 & _). rewrite H4, filter_app.
  rewrite (filter_none _ (map (pair rid) _)), app_nil_r.
  - apply filter_others_kept.
  - intros e He. apply in_map_iff in He. destruct He as (g & <- & _).
    simpl. now rewrite Z.eqb_refl.
Qed.

Lemma insert_genre_edges (db : Db) (name : string) (db' : Db) (g : Genre) :
  insert_genre db name = Ok (db', g) -> record_genre db' = record_genre db.
Proof.
  unfold insert_genre. destruct (existsb _ _); intros H; inversion H.
  reflexivity.
Qed.

Lemma update_genres_others (rid : Z) (names : list string) : forall db cur db' cur',
  update_genres db rid names cur = Ok (db', cur') ->
  filter (fun e => negb (fst e =? rid)) (record_genre db') =
  filter (fun e => negb (fst e =? rid)) (record_genre db).
Proof.
  induction names as [|n rest IH]; simpl; intros db cur db' cur' H.
  - now inversion H.
  - destruct (get_genre_by_name db n) as [g|]; simpl in H.
    + exact (IH _ _ _ _ H).
    + destruct (sync_genres db rid cur) as [dbs|] eqn:Es; simpl in H;
        [|discriminate].
      destruct (insert_genre dbs n) as [[db1 g]|] eqn:Ei; simpl in H;
        [|discriminate].
      rewrite (IH _ _ _ _ H), (insert_genre_edges _ _ Ei).
      exact (sync_genres_others _ _ _ Es).
Qed.

Lemma update_record_others (db : Db) (rid : Z) (u : RecordUpdate) (today utcnow : date)
      (db' : Db) (o : option RecordObj) :
  update_record db rid u today utcnow = Ok (db', o) ->
  filter (fun e => negb (fst e =? rid)) (record_genre db') =
  filter (fun e => negb (fst e =? rid)) (record_genre db).
Proof.
  unfold update_record. intros H.
  destruct (find_record db rid); [|now inversion H].
  destruct (replace_genres db rid u) as [[db1 cur]|] eqn:Eg; simpl in H;
    [|discriminate].
  destruct (replace_tracks db1 rid u) as [db2|] eqn:Et; simpl in H;
    [|discriminate].
  destruct (setattr_not_null (ru_title u) _); simpl in H; [|discriminate].
  destruct (setattr_not_null (ru_artist u) _); simpl in H; [|discriminate].
  apply replace_tracks_inv in Et. destruct Et as (_ & _ & T3 & _).
  assert (G : filter (fun e => negb (fst e =? rid)) (record_genre db1) =
              filter (fun e => negb (fst e =? rid)) (record_genre db)).
  { unfold replace_genres in Eg.
    destruct (ru_genres u) as [[names|]|]; simpl in Eg.
    - destruct (update_genres db rid names []) as [[d c]|] eqn:E; simpl in Eg;
        [|discriminate].
      inversion Eg; subst. exact (update_genres_others _ _ _ _ E).
    - discriminate.
    - now inversion Eg. }
  destruct cur as [c|]; simpl in H.
  - destruct (sync_genres db2 rid c) as [db3|] eqn:Es; simpl in H;
      [|discriminate].
    inversion H; subst. simpl.
    now rewrite (sync_genres_others _ _ _ Es), T3.
  - inversion H; subst. simpl. now rewrite T3.
Qed.

Lemma find_replace_other (rid other : Z) (new : RecordRow) (l : list RecordRow) :
  id new = rid -> other <> rid ->
  find (fun r => id r =? other)
       (map (fun r => if id r =? rid then new else r) l) =
  find (fun r => id r =? other) l.
Proof.
  intros Hnew Hne. induction l as [|r l IH]; simpl; [reflexivity|].
  destruct (id r =? rid) eqn:Er.
  - apply Z.eqb_eq in Er.
    replace (id new =? other) with false
      by (symmetry; apply Z.eqb_neq; congruence).
    replace (id r =? other) with false
      by (symmetry; apply Z.eqb_neq; congruence).
    assumption.
  - destruct (id r =? other); auto.
Qed.

(** X4.  An update touches no other record.  Whatever a successful
    [update_record] on [rid] does, the stored ids are the same in the same
    order, no row of "genres" is removed or changed, and [get_record]
    answers as before at every other id. *)
Theorem update_keeps_other_records (db : Db) (rid : Z) (u : RecordUpdate)
        (today utcnow : date) (db' : Db) (o : option RecordObj) :
  wf db -> update_record db rid u today utcnow = Ok (db', o) ->
  map id (records db') = map id (records db) /\
  (exists ext, genres_tbl db' = genres_tbl db ++ ext) /\
  (forall other, other <> rid -> get_record db' other = get_record db other).
Proof.
  intros W H. pose proof (update_record_others _ _ _ _ _ H) as He.
  destruct o as [r'|].
  - destruct (update_record_inv _ _ _ _ W H)
      as (old & t & a & Hf & Hid & _ & _ & _ & Hrec & _ & Htr & Hg).
    assert (Hext : exists ext, genres_tbl db' = genres_tbl db ++ ext).
    { destruct (ru_genres u) as [[names|]|]; [| contradiction |].
      - tauto.
      - exists []. rewrite app_nil_r. tauto. }
    split_and; auto.
    + rewrite Hrec. now apply map_id_replace.
    + intros other Hne. unfold get_record, find_record. rewrite Hrec.
      rewrite find_replace_other by auto.
      destruct (find (fun x => id x =? other) (records db)) as [x|] eqn:E;
        [|reflexivity].
      apply (find_key_in id Z.eqb Z.eqb_eq) in E. destruct E as [_ E].
      simpl. f_equal. destruct Hext as [ext Hext].
      apply load_same_elsewhere with (rid := rid) (ext := ext); auto;
        [congruence|].
      destruct (ru_tracks u) as [[[|? ?]|]|]; try contradiction.
      * rewrite Htr. apply tracks_of_other. congruence.
      * now rewrite Htr.
  - unfold update_record in H.
    destruct (find_record db rid).
    + destruct (replace_genres db rid u) as [[? ?]|]; simpl in H; [|discriminate].
      destruct (replace_tracks _ rid u); simpl in H; [|discriminate].
      destruct (setattr_not_null (ru_title u) _); simpl in H; [|discriminate].
      destruct (setattr_not_null (ru_artist u) _); simpl in H; [|discriminate].
      destruct o; [destruct (sync_genres _ _ _)|]; simpl in H; discriminate.
    + inversion H; subst. split_and; auto.
      exists []. now rewrite app_nil_r.
Qed.

Lemma update_keeps_other_records_witness :
  wf db_two /\
  exists db' o,
    update_record db_two 1 (update_genres_only ["Blues"; "Jazz"]) 12 12 = Ok (db', o) /\
    map id (records db') = [1; 2] /\
    get_record db' 2 = get_record db_two 2.
Proof.
  split; [exact wf_db_two|].
  eexists. eexists. split; [vm_compute; reflexivity|].
  destruct (@update_keeps_other_records db_two 1
              (update_genres_only ["Blues"; "Jazz"]) 12 12 _ _ wf_db_two eq_refl)
    as (Hids & _ & Hget).
  split; [exact Hids|]. apply Hget. discriminate.
Defined.

(** ** Edge cases of [update_record] *)

(** X5.  An explicit empty list clears.  After a successful update, an
    input with genres = [] leaves the record without genres and without
    association rows, and an input with tracks = [] leaves it without
    tracks, the tracks of the other records staying in the table. *)
Theorem update_empty_lists_clear (db : Db) (rid : Z) (u : RecordUpdate)
        (today utcnow : date) (db' : Db) (r' : RecordObj) :
  wf db -> update_record db rid u today utcnow = Ok (db', Some r') ->
  (ru_genres u = Some (Some []) ->
   genres r' = [] /\ forall gid, ~ In (rid, gid) (record_genre db')) /\
  (ru_tracks u = Some (Some []) ->
   tracks r' = [] /\
   forall t, In t (tracks_tbl db') <->
             In t (tracks_tbl db) /\ track_record_id t <> rid).
Proof.
  intros W H.
  destruct (update_record_inv _ _ _ _ W H)
    as (old & t & a & Hf & Hid & _ & _ & Hr & Hrec & W' & Htr & Hg).
  split.
  - intros Hu. rewrite Hu in Hg. destruct Hg as (_ & _ & new & Hn & _ & He).
    apply map_eq_nil in Hn. subst new. simpl in He.
    assert (Hno : forall gid, ~ In (rid, gid) (record_genre db')).
    { intros gid Hin. now apply He in Hin. }
    split; [|exact Hno].
    subst r'. cbn [genres load row id update_row set_updated_at assign_row].
    unfold genres_of. apply genres_join_fresh.
    intros [x gid] Hin E. simpl in E. rewrite Hid in E. subst x.
    exact (Hno gid Hin).
  - intros Hu. rewrite Hu in Htr. split.
    + subst r'. cbn [tracks load row id update_row set_updated_at assign_row].
      unfold tracks_of.
      rewrite Htr, Hid. apply filter_none. intros x Hx.
      apply filter_In in Hx. destruct Hx as [_ Hx].
      now apply negb_true_iff in Hx.
    + intros x. rewrite Htr, filter_In, negb_true_iff, Z.eqb_neq. tauto.
Qed.

Lemma update_empty_lists_clear_witness :
  wf db_one /\
  List.length (genres rec_one) = 2%nat /\ List.length (tracks rec_one) = 2%nat /\
  exists db' r',
    update_record db_one 1
      (mkRecordUpdate None None None None None None None None None None None
                      None None (Some (Some [])) (Some (Some []))) 11 11
      = Ok (db', Some r') /\
    genres r' = [] /\ tracks r' = [].
Proof.
  split; [exact wf_db_one|]. split; [reflexivity|]. split; [reflexivity|].
  eexists. eexists. split; [vm_compute; reflexivity|].
  destruct (@update_empty_lists_clear db_one 1
              (mkRecordUpdate None None None None None None None None None None
                              None None None (Some (Some [])) (Some (Some [])))
              11 11 _ _ wf_db_one eq_refl) as [Hg Ht].
  split; [apply (Hg eq_refl)|apply (Ht eq_refl)].
Defined.

(** X6.  What makes [update_record] raise.  It returns a record only when
    title, artist and genres are not set to None and the tracks key is
    absent or an empty list.  On a stored id, genres = None raises TypeError;
    with the genres key absent, tracks = None raises TypeError and any
    non-empty track list raises AttributeError. *)
Theorem update_returns_only_if (db : Db) (rid : Z) (u : RecordUpdate)
        (today utcnow : date) :
  (forall db' r',
     update_record db rid u today utcnow = Ok (db', Some r') ->
     ru_title u <> Some None /\ ru_artist u <> Some None /\
     ru_genres u <> Some None /\
     (ru_tracks u = None \/ ru_tracks u = Some (Some []))) /\
  (forall r,
     get_record db rid = Some r ->
     (ru_genres u = Some None ->
      update_record db rid u today utcnow = Raise TypeError) /\
     (ru_genres u = None -> ru_tracks u = Some None ->
      update_record db rid u today utcnow = Raise TypeError) /\
     (ru_genres u = None ->
      forall t ts, ru_tracks u = Some (Some (t :: ts)) ->
                   update_record db rid u today utcnow = Raise AttributeError)).
Proof.
  split.
  - intros db' r' H. unfold update_record in H.
    destruct (find_record db rid); [|discriminate].
    unfold replace_genres, replace_tracks in H.
    destruct (ru_genres u) as [[names|]|]; simpl in H; try discriminate;
      try (destruct (update_genres db rid names []) as [[? ?]|]; simpl in H;
           [|discriminate]);
      destruct (ru_tracks u) as [[[|? ?]|]|]; simpl in H; try discriminate;
      destruct (ru_title u) as [[?|]|]; simpl in H; try discriminate;
      destruct (ru_artist u) as [[?|]|]; simpl in H; try discriminate;
      split_and; auto; discriminate.
  - intros r Hget. apply get_record_found in Hget. destruct Hget as [x Hx].
    unfold update_record, replace_genres, replace_tracks. rewrite Hx.
    split_and.
    + intros ->. reflexivity.
    + intros -> ->. reflexivity.
    + intros -> t ts ->. reflexivity.
Qed.

Lemma update_returns_only_if_witness :
  get_record db_one 1 = Some rec_one /\
  update_record db_one 1
    (mkRecordUpdate None None None None None None None None None None None
                    None None (Some None) None) 11 11 = Raise TypeError /\
  update_record db_one 1
    (update_tracks_only [mkTrackCreate "Side B" None None]) 11 11
    = Raise AttributeError /\
  exists db' r',
    update_record db_one 1 (update_tracks_only []) 11 11 = Ok (db', Some r') /\
    (ru_tracks (update_tracks_only []) = None \/
     ru_tracks (update_tracks_only []) = Some (Some [])).
Proof.
  split; [reflexivity|].
  destruct (update_returns_only_if db_one 1
              (mkRecordUpdate None None None None None None None None None None
                              None None None (Some None) None) 11 11) as [_ H1].
  destruct (H1 rec_one eq_refl) as (Hg & _ & _).
  destruct (update_returns_only_if db_one 1
              (update_tracks_only [mkTrackCreate "Side B" None None]) 11 11)
    as [_ H2].
  destruct (H2 rec_one eq_refl) as (_ & _ & Ht).
  destruct (update_returns_only_if db_one 1 (update_tracks_only []) 11 11)
    as [H3 _].
  split; [exact (Hg eq_refl)|]. split; [exact (Ht eq_refl _ _ eq_refl)|].
  eexists. eexists. split; [vm_compute; reflexivity|].
  eapply H3. vm_compute. reflexivity.
Defined.

(** ** The genre table *)

Lemma update_record_genres_extend (db : Db) (rid : Z) (u : RecordUpdate)
      (today utcnow : date) (db' : Db) (o : option RecordObj) :
  wf db -> update_record db rid u today utcnow = Ok (db', o) ->
  exists ext, genres_tbl db' = genres_tbl db ++ ext.
Proof.
  intros W H. destruct o as [r'|].
  - destruct (update_record_inv _ _ _ _ W H)
      as (old & t & a & _ & _ & _ & _ & _ & _ & _ & _ & Hg).
    destruct (ru_genres u) as [[names|]|]; [| contradiction |].
    + tauto.
    + exists []. rewrite app_nil_r. tauto.
  - unfold update_record in H.
    destruct (find_record db rid).
    + destruct (replace_genres db rid u) as [[? ?]|]; simpl in H; [|discriminate].
      destruct (replace_tracks _ rid u); simpl in H; [|discriminate].
      destruct (setattr_not_null (ru_title u) _); simpl in H; [|discriminate].
      destruct (setattr_not_null (ru_artist u) _); simpl in H; [|discriminate].
      destruct o; [destruct (sync_genres _ _ _)|]; simpl in H; discriminate.
    + inversion H; subst. exists []. now rewrite app_nil_r.
Qed.

(** X7.  Genres are never deleted, renamed or renumbered.  A genre that
    [get_genre_by_name] finds before a successful create, update or delete
    is found, unchanged, afterwards. *)
Theorem genre_lookup_is_stable (db : Db) (name : string) (g : Genre) :
  wf db -> get_genre_by_name db name = Some g ->
  (forall record now db' r,
     create_record db record now = Ok (db', r) ->
     get_genre_by_name db' name = Some g) /\
  (forall rid u today utcnow db' o,
     update_record db rid u today utcnow = Ok (db', o) ->
     get_genre_by_name db' name = Some g) /\
  (forall rid db' b,
     delete_record db rid = Ok (db', b) ->
     get_genre_by_name db' name = Some g).
Proof.
  intros W Hg. unfold get_genre_by_name in *. split_and.
  - intros record now db' r H.
    destruct (create_record_inv _ _ W H) as (ext & ng & nt & _ & _ & H2 & _).
    rewrite H2. now apply find_app_l.
  - intros rid u today utcnow db' o H.
    destruct (update_record_genres_extend _ _ _ _ W H) as [ext H2].
    rewrite H2. now apply find_app_l.
  - intros rid db' b H. unfold delete_record in H.
    destruct (find_record db rid); inversion H; subst; assumption.
Qed.

Lemma genre_lookup_is_stable_witness :
  wf db_one /\ get_genre_by_name db_one "Pop" = Some (mkGenre 2 "Pop") /\
  get_genre_by_name db_two "Pop" = Some (mkGenre 2 "Pop") /\
  get_genre_by_name (store_of (delete_record db_one 1)) "Pop"
    = Some (mkGenre 2 "Pop").
Proof.
  split; [exact wf_db_one|]. split; [reflexivity|].
  destruct (@genre_lookup_is_stable db_one "Pop" (mkGenre 2 "Pop")
              wf_db_one eq_refl) as (Hc & _ & Hd).
  split.
  - eapply (Hc (with_genres (blank_create "Kind of Blue" "Miles Davis")
                            ["Jazz"; "Rock"]) 11 db_two).
    vm_compute. reflexivity.
  - eapply (Hd 1). vm_compute. reflexivity.
Defined.

(** X8.  Resolution round trip.  After a successful create, and after a
    successful update that carries a genres key, looking up any of the
    supplied names with [get_genre_by_name] returns a genre of that name
    which is one of the genres of the record. *)
Theorem supplied_genres_resolve (db : Db) :
  wf db ->
  (forall record now db' r n,
     create_record db record now = Ok (db', r) ->
     In n (input_genres record) ->
     exists g, get_genre_by_name db' n = Some g /\
               genre_name g = n /\ In g (genres r)) /\
  (forall rid u today utcnow names db' r' n,
     update_record db rid u today utcnow = Ok (db', Some r') ->
     ru_genres u = Some (Some names) -> In n names ->
     exists g, get_genre_by_name db' n = Some g /\
               genre_name g = n /\ In g (genres r')).
Proof.
  intros W. split.
  - intros record now db' r n H Hn.
    pose proof (create_record_wf _ _ W H) as W'.
    destruct (create_record_loaded _ _ W H) as (_ & _ & Hnames & _ & Hin & _).
    rewrite <- Hnames in Hn. apply in_map_iff in Hn.
    destruct Hn as (g & <- & Hg). exists g.
    rewrite Forall_forall in Hin. split_and; auto.
    unfold get_genre_by_name.
    apply (find_key genre_name String.eqb String.eqb_eq); [apply W'|auto].
  - intros rid u today utcnow names db' r' n H Hu Hn.
    destruct (update_record_inv _ _ _ _ W H)
      as (old & t & a & _ & Hid & _ & _ & Hr & _ & W' & _ & Hg).
    rewrite Hu in Hg. destruct Hg as (_ & _ & new & Hnames & Hin & He).
    rewrite <- Hnames in Hn. apply in_map_iff in Hn.
    destruct Hn as (g & <- & Hg). exists g.
    rewrite Forall_forall in Hin. split_and; auto.
    + unfold get_genre_by_name.
      apply (find_key genre_name String.eqb String.eqb_eq); [apply W'|auto].
    + subst r'. cbn [genres load row id update_row set_updated_at assign_row].
      rewrite Hid.
      apply (in_genres_of _ _ _ (wf_genre_ids W')). split; [auto|].
      apply He. now apply in_map.
Qed.

Lemma supplied_genres_resolve_witness :
  wf db_one /\
  exists db' r',
    update_record db_one 1 (update_genres_only ["Blues"; "Rock"]) 12 12
      = Ok (db', Some r') /\
    exists g, get_genre_by_name db' "Blues" = Some g /\
              genre_name g = "Blues" /\ In g (genres r').
Proof.
  split; [exact wf_db_one|].
  destruct (supplied_genres_resolve wf_db_one) as [_ Hu].
  eexists. eexists. split; [vm_compute; reflexivity|].
  apply (Hu 1 (update_genres_only ["Blues"; "Rock"]) 12 12 ["Blues"; "Rock"]).
  - vm_compute. reflexivity.
  - reflexivity.
  - simpl. auto.
Defined.

(** ** Listing and paging *)

Lemma in_skipn {A} (n : nat) (l : list A) (x : A) : In x (skipn n l) -> In x l.
Proof.
  revert l. induction n as [|n IH]; intros [|a l]; simpl; auto.
Qed.

Lemma in_firstn {A} (n : nat) (l : list A) (x : A) : In x (firstn n l) -> In x l.
Proof.
  revert l. induction n as [|n IH]; intros [|a l]; simpl; auto.
  - contradiction.
  - intros [H|H]; auto.
Qed.

Lemma in_page {A} (skip limit : Z) (l : list A) (x : A) :
  In x (page skip limit l) -> In x l.
Proof.
  unfold page. destruct (limit <? 0); intros H.
  - eapply in_skipn; eauto.
  - eapply in_skipn, in_firstn; eauto.
Qed.

Lemma sorted_skipn (n : nat) (l : list Z) :
  StronglySorted Z.lt l -> StronglySorted Z.lt (skipn n l).
Proof.
  revert l. induction n as [|n IH]; intros [|a l] H; simpl; auto.
  apply IH. now apply StronglySorted_inv in H.
Qed.

Lemma sorted_firstn (n : nat) (l : list Z) :
  StronglySorted Z.lt l -> StronglySorted Z.lt (firstn n l).
Proof.
  revert l. induction n as [|n IH]; intros [|a l] H; simpl; try constructor.
  - apply IH. now apply StronglySorted_inv in H.
  - apply StronglySorted_inv in H. destruct H as [_ H].
    rewrite Forall_forall in *. intros x Hx. apply H.
    eapply in_firstn; eauto.
Qed.

Lemma sorted_page (skip limit : Z) (l : list Z) :
  StronglySorted Z.lt l -> StronglySorted Z.lt (page skip limit l).
Proof.
  intros H. unfold page. destruct (limit <? 0).
  - now apply sorted_skipn.
  - now apply sorted_firstn, sorted_skipn.
Qed.

Lemma length_page {A} (skip limit : Z) (l : list A) :
  0 <= limit -> (List.length (page skip limit l) <= Z.to_nat limit)%nat.
Proof.
  intros H. rewrite page_nonneg by assumption. apply firstn_le_length.
Qed.

Lemma firstn_plus {A} (n m : nat) (l : list A) :
  firstn (n + m) l = firstn n l ++ firstn m (skipn n l).
Proof.
  revert l. induction n as [|n IH]; intros [|a l]; simpl; auto.
  - now rewrite firstn_nil.
  - now rewrite IH.
Qed.

(** Two consecutive windows make one window. *)
Lemma page_plus {A} (skip n m : Z) (l : list A) :
  0 <= skip -> 0 <= n -> 0 <= m ->
  page skip n l ++ page (skip + n) m l = page skip (n + m) l.
Proof.
  intros Hs Hn Hm. rewrite !page_nonneg by lia.
  rewrite !Z2Nat.inj_add by lia.
  rewrite firstn_plus, skipn_skipn.
  now rewrite (Nat.add_comm (Z.to_nat n)).
Qed.

(** X9.  The list agrees with get.  On a well-formed store the records
    [get_records] returns have strictly increasing ids, each of them is
    what [get_record] returns at its id, their number is at most a
    non-negative limit, and with offset 0 and a negative limit every stored
    record is listed. *)
Theorem listing_agrees_with_get (db : Db) (skip limit : Z) :
  wf db ->
  StronglySorted Z.lt (map (fun r => id (row r)) (get_records db skip limit)) /\
  (forall r, In r (get_records db skip limit) ->
             get_record db (id (row r)) = Some r) /\
  (0 <= limit ->
   (List.length (get_records db skip limit) <= Z.to_nat limit)%nat) /\
  (forall i r, get_record db i = Some r -> In r (get_records db 0 (-1))).
Proof.
  intros W. unfold get_records. split_and.
  - rewrite <- page_map, map_map. simpl. rewrite page_map.
    apply sorted_page, W.
  - intros r Hr. apply in_page, in_map_iff in Hr.
    destruct Hr as (x & <- & Hx). unfold get_record, find_record. simpl.
    rewrite (find_key id Z.eqb Z.eqb_eq _ _ (sorted_NoDup (wf_records W)) Hx).
    reflexivity.
  - apply length_page.
  - intros i r H. rewrite page_all. unfold get_record in H.
    destruct (find_record db i) as [x|] eqn:E; [|discriminate].
    inversion H; subst. apply in_map.
    now apply find_record_id in E.
Qed.

Lemma listing_agrees_with_get_witness :
  wf db_two /\
  map (fun r => id (row r)) (get_records db_two 0 100) = [1; 2] /\
  (forall r, In r (get_records db_two 1 1) ->
             get_record db_two (id (row r)) = Some r) /\
  (List.length (get_records db_two 1 1) <= Z.to_nat 1)%nat.
Proof.
  split; [exact wf_db_two|]. split; [reflexivity|].
  destruct (@listing_agrees_with_get db_two 1 1 wf_db_two) as (_ & Hg & Hl & _).
  split; [exact Hg|]. apply Hl. lia.
Defined.

(** X10.  Consecutive pages concatenate.  For non-negative offset and
    limits, the page of [n] records at [skip] followed by the page of [m]
    records at [skip + n] is the page of [n + m] records at [skip]; the
    same holds for [get_genres]. *)
Theorem consecutive_pages_concatenate (db : Db) (skip n m : Z) :
  0 <= skip -> 0 <= n -> 0 <= m ->
  get_records db skip n ++ get_records db (skip + n) m
    = get_records db skip (n + m) /\
  get_genres db skip n ++ get_genres db (skip + n) m
    = get_genres db skip (n + m).
Proof.
  intros Hs Hn Hm. unfold get_records, get_genres.
  split; now apply page_plus.
Qed.

Lemma consecutive_pages_concatenate_witness :
  get_records db_two 0 1 ++ get_records db_two 1 1 = get_records db_two 0 2 /\
  get_genres db_two 0 2 ++ get_genres db_two 2 5 = get_genres db_two 0 7.
Proof.
  split.
  - apply (@consecutive_pages_concatenate db_two 0 1 1); lia.
  - apply (@consecutive_pages_concatenate db_two 0 2 5); lia.
Defined.

(** ** Delete, and the ids that follow *)

Lemma load_after_delete (db : Db) (rid : Z) (x : RecordRow) :
  id x <> rid ->
  load (mkDb (filter (fun r => negb (id r =? rid)) (records db))
             (genres_tbl db)
             (filter (fun t => negb (track_record_id t =? rid)) (tracks_tbl db))
             (filter (fun e => negb (fst e =? rid)) (record_genre db))) x
  = load db x.
Proof.
  intros Hne. unfold load. f_equal.
  - now apply genres_of_other with (rid := rid).
  - unfold tracks_of. simpl. now apply tracks_of_other.
Qed.

Lemma length_filter_one (rid : Z) (l : list RecordRow) (x : RecordRow) :
  NoDup (map id l) -> find (fun r => id r =? rid) l = Some x ->
  S (List.length (filter (fun r => negb (id r =? rid)) l)) = List.length l.
Proof.
  induction l as [|a l IH]; simpl; intros Hnd H; [discriminate|].
  inversion Hnd as [|? ? Ha Hl]; subst.
  destruct (id a =? rid) eqn:E; simpl.
  - f_equal. f_equal. apply filter_all. intros y Hy.
    apply negb_true_iff, Z.eqb_neq. intros Ey.
    apply Z.eqb_eq in E. apply Ha. rewrite E, <- Ey. now apply in_map.
  - f_equal. auto.
Qed.

(** X11.  Delete and the list.  After [delete_record], the unpaged list is
    the previous list without the record of that id, the other records
    unchanged and in the same order; on a well-formed store the number of
    stored records drops by one when the answer is True and stays when it
    is False. *)
Theorem delete_removes_one_from_list (db : Db) (rid : Z) (db' : Db) (b : bool) :
  delete_record db rid = Ok (db', b) ->
  get_records db' 0 (-1) =
    filter (fun r => negb (id (row r) =? rid)) (get_records db 0 (-1)) /\
  (wf db ->
   List.length (records db) =
     (List.length (records db') + if b then 1 else 0)%nat).
Proof.
  intros H. unfold delete_record in H.
  destruct (find_record db rid) as [x|] eqn:E; inversion H; subst; clear H.
  - split.
    + unfold get_records. rewrite !page_all. cbn [records].
      rewrite filter_map_swap. cbn [row load id].
      apply map_ext_in. intros y Hy. apply filter_In in Hy.
      destruct Hy as [_ Hy]. apply negb_true_iff, Z.eqb_neq in Hy.
      now apply load_after_delete.
    + intros W. cbn [records].
      rewrite <- (length_filter_one rid (records db) (x := x)); auto; [lia|].
      apply sorted_NoDup, W.
  - split; [|intros _; lia].
    unfold get_records. rewrite !page_all, filter_map_swap. cbn [row load id].
    f_equal. symmetry. apply filter_all. intros y Hy.
    apply negb_true_iff, Z.eqb_neq. intros Ey.
    apply (find_none _ _ E) in Hy. apply Z.eqb_neq in Hy. contradiction.
Qed.

Lemma delete_removes_one_from_list_witness :
  exists db',
    delete_record db_two 1 = Ok (db', true) /\
    map (fun r => id (row r)) (get_records db' 0 (-1)) = [2] /\
    List.length (records db_two) = (List.length (records db') + 1)%nat.
Proof.
  eexists. split; [vm_compute; reflexivity|].
  destruct (@delete_removes_one_from_list db_two 1 _ true eq_refl) as [Hl Hn].
  split; [|exact (Hn wf_db_two)].
  etransitivity; [apply f_equal; exact Hl|reflexivity].
Defined.

Lemma filter_drop_last (rid : Z) (l : list RecordRow) (x : RecordRow) :
  id x = rid -> Forall (fun y => y < rid) (map id l) ->
  filter (fun r => negb (id r =? rid)) (l ++ [x]) = l.
Proof.
  intros Hx Hl. rewrite filter_app. simpl. rewrite Hx, Z.eqb_refl. simpl.
  rewrite app_nil_r. apply filter_all. intros y Hy.
  apply negb_true_iff, Z.eqb_neq. rewrite Forall_forall in Hl.
  assert (id y < rid) by (apply Hl; now apply in_map). lia.
Qed.

(** X12.  An id can be issued twice.  When the record created last is
    deleted, the next record created receives the id of the deleted one:
    ids are one more than the largest stored id, not a running counter. *)
Theorem id_of_deleted_last_record_is_reused (db : Db)
        (record1 record2 : RecordCreate) (now1 now2 : date)
        (db1 db2 db3 : Db) (r1 r3 : RecordObj) (b : bool) :
  wf db ->
  create_record db record1 now1 = Ok (db1, r1) ->
  delete_record db1 (id (row r1)) = Ok (db2, b) ->
  create_record db2 record2 now2 = Ok (db3, r3) ->
  b = true /\ get_record db2 (id (row r1)) = None /\
  id (row r3) = id (row r1) /\ get_record db3 (id (row r1)) = Some r3.
Proof.
  intros W H1 H2 H3.
  pose proof (create_record_wf _ _ W H1) as W1.
  pose proof (delete_record_wf _ W1 H2) as W2.
  destruct (create_record_inv _ _ W H1) as (ext & ng & nt & _ & R1 & _).
  destruct (create_record_loaded _ _ W H1) as (Hrow1 & Hget1 & _).
  destruct (create_record_loaded _ _ W2 H3) as (Hrow3 & Hget3 & _).
  assert (Hid1 : id (row r1) = next_id (map id (records db))).
  { now rewrite Hrow1. }
  destruct (delete_record_inv _ _ Hget1) as (d & Hd & Hnone & _).
  rewrite Hd in H2. inversion H2; subst d b; clear H2.
  assert (R2 : records db2 = records db).
  { unfold delete_record in Hd.
    destruct (find_record db1 (id (row r1))); inversion Hd.
    cbn [records]. rewrite R1. apply filter_drop_last.
    - simpl. now rewrite Hid1.
    - rewrite Hid1. apply next_id_gt. }
  assert (Hid3 : id (row r3) = id (row r1)).
  { rewrite Hrow3, Hid1, R2. reflexivity. }
  split_and; auto. now rewrite <- Hid3.
Qed.

Lemma id_of_deleted_last_record_is_reused_witness :
  wf db_one /\
  exists r1 db2 db3 r3,
    create_record db_one (blank_create "Kind of Blue" "Miles Davis") 11
      = Ok (store_of (create_record db_one
                        (blank_create "Kind of Blue" "Miles Davis") 11), r1) /\
    delete_record (store_of (create_record db_one
                               (blank_create "Kind of Blue" "Miles Davis") 11))
                  (id (row r1)) = Ok (db2, true) /\
    create_record db2 (blank_create "Blue Train" "John Coltrane") 12
      = Ok (db3, r3) /\
    id (row r1) = 2 /\ id (row r3) = 2.
Proof.
  split; [exact wf_db_one|].
  eexists. eexists. eexists. eexists.
  split; [vm_compute; reflexivity|].
  split; [vm_compute; reflexivity|].
  split; [vm_compute; reflexivity|].
  split; [reflexivity|].
  refine (proj1 (proj2 (proj2
    (@id_of_deleted_last_record_is_reused db_one
       (blank_create "Kind of Blue" "Miles Davis")
       (blank_create "Blue Train" "John Coltrane") 11 12
       _ _ _ _ _ true wf_db_one eq_refl eq_refl eq_refl)))).
Defined.

(** ** More on search *)

Lemma some_suffix_here (f : list ascii -> bool) (s : list ascii) :
  f s = true -> some_suffix f s = true.
Proof.
  intros H. destruct s; simpl; now rewrite H.
Qed.

Lemma some_suffix_mono (f g : list ascii -> bool) (s : list ascii) :
  (forall t, f t = true -> g t = true) ->
  some_suffix f s = true -> some_suffix g s = true.
Proof.
  intros H. induction s as [|c s IH]; simpl; rewrite !orb_true_iff.
  - intros [Hf|Hf]; [left; auto|discriminate].
  - intros [Hf|Hf]; [left; auto|right; auto].
Qed.

(** A pattern matches the text it is spelled with, wildcards included. *)
Lemma like_own_prefix (p rest : list ascii) :
  like (p ++ ["%"%char]) (p ++ rest) = true.
Proof.
  induction p as [|c p IH]; simpl.
  - destruct rest; simpl; [reflexivity|apply some_suffix_end].
  - destruct (Ascii.eqb c "%"%char).
    + rewrite orb_true_iff. right. now apply some_suffix_here.
    + now rewrite Ascii.eqb_refl, orb_true_r, IH.
Qed.

Lemma contains_like (p s : list ascii) :
  containsb p s = true -> like ("%"%char :: p ++ ["%"%char]) s = true.
Proof.
  rewrite containsb_some_suffix.
  change (like ("%"%char :: p ++ ["%"%char]) s)
    with (some_suffix (like (p ++ ["%"%char])) s).
  apply some_suffix_mono. intros t Ht.
  apply prefixb_iff in Ht. destruct Ht as [b ->]. apply like_own_prefix.
Qed.

Lemma contains_ilike (q s : string) :
  contains_ci q s = true -> ilike s ("%" ++ q ++ "%")%string = true.
Proof.
  intros H. unfold ilike. rewrite !list_ascii_of_string_app. simpl.
  change (lower ("%"%char :: list_ascii_of_string q ++ ["%"%char]))
    with (lower_ascii "%"%char :: lower (list_ascii_of_string q ++ ["%"%char])).
  unfold lower at 1. rewrite map_app. simpl.
  change (lower_ascii "%"%char) with "%"%char.
  apply contains_like. exact H.
Qed.

Lemma spec_matches_search_filter (db : Db) (q : string) (x : RecordRow) :
  spec_matches q (load db x) = true ->
  search_filter db ("%" ++ q ++ "%")%string x = true.
Proof.
  unfold search_filter, spec_matches, ilike_null, contains_ci_null, load.
  cbn [row genres]. rewrite !orb_true_iff, !existsb_exists.
  intros [[[[H|H]|H]|H]|(g & Hg & H)].
  - left. left. left. left. now apply contains_ilike.
  - left. left. left. right. now apply contains_ilike.
  - left. left. right. destruct (label x); [now apply contains_ilike|discriminate].
  - left. right.
    destruct (catalog_number x); [now apply contains_ilike|discriminate].
  - right. exists g. split; [assumption|now apply contains_ilike].
Qed.


Lemma search_finds_substring_matches_aux (db : Db) (q : string) (r : RecordObj) :
  In r (all_records db) -> spec_matches q r = true ->
  In r (results (search_records db q 0 (-1))).
Proof.
  unfold search_records, all_records. cbn [results].
  intros Hr Hm. rewrite page_all. apply in_map_iff in Hr.
  destruct Hr as (x & <- & Hx). apply in_map. apply filter_In.
  split; [assumption|now apply spec_matches_search_filter].
Qed.


Lemma length_page_le {A} (skip limit : Z) (l : list A) :
  (List.length (page skip limit l) <= List.length l)%nat.
Proof.
  unfold page. destruct (limit <? 0).
  - rewrite length_skipn. lia.
  - rewrite length_firstn, length_skipn. lia.
Qed.

Lemma search_pages_one_match_list_aux (db : Db) (q : string) (skip limit : Z)
      (r : RecordObj) :
  In r (results (search_records db q skip limit)) ->
  exists x, load db x = r /\ In x (records db).
Proof.
  unfold search_records. cbn [results]. intros Hr.
  apply in_map_iff in Hr. destruct Hr as (x & <- & Hx).
  exists x. split; [reflexivity|]. apply in_page, filter_In in Hx. tauto.
Qed.

(** X14.  Search pages one list of matches.  The total does not depend on
    offset and limit: it is the length of the unpaged results; the results
    for an offset and a limit are that page of the unpaged results; every
    result is a record of the unpaged list; and there are never more
    results than the total, nor a total above the number of stored
    records. *)
Theorem search_pages_one_match_list (db : Db) (q : string) (skip limit : Z) :
  results (search_records db q skip limit) =
    page skip limit (results (search_records db q 0 (-1))) /\
  total (search_records db q skip limit) =
    List.length (results (search_records db q 0 (-1))) /\
  (forall r, In r (results (search_records db q skip limit)) ->
             In r (get_records db 0 (-1))) /\
  (List.length (results (search_records db q skip limit))
   <= total (search_records db q skip limit))%nat /\
  (total (search_records db q skip limit) <= List.length (records db))%nat.
Proof.
  unfold search_records, get_records. cbn [results total].
  rewrite !page_all. split_and.
  - apply page_map.
  - now rewrite length_map.
  - intros r Hr. apply in_map_iff in Hr. destruct Hr as (x & <- & Hx).
    apply in_map. apply in_page, filter_In in Hx. tauto.
  - rewrite length_map. apply length_page_le.
  - apply filter_length_le.
Qed.

(** ** The handlers *)





Lemma update_record_found (db : Db) (rid : Z) (u : RecordUpdate) (today utcnow : date)
      (x : RecordRow) (db' : Db) :
  find_record db rid = Some x ->
  update_record db rid u today utcnow <> Ok (db', None).
Proof.
  intros Hx H. unfold update_record in H. rewrite Hx in H.
  destruct (replace_genres db rid u) as [[? o]|]; simpl in H; [|discriminate].
  destruct (replace_tracks _ rid u); simpl in H; [|discriminate].
  destruct (setattr_not_null (ru_title u) _); simpl in H; [|discriminate].
  destruct (setattr_not_null (ru_artist u) _); simpl in H; [|discriminate].
  destruct o; [destruct (sync_genres _ _ _)|]; simpl in H; discriminate.
Qed.

(** X16.  404 means a missing id, and only that.  On an id that is not
    stored, the read, update and delete handlers raise HTTPException 404
    "Record not found".  On a stored id the read handler answers with the
    record, the update handler never raises 404, and the delete handler
    answers True, after which read and delete on that id raise 404. *)
Theorem handlers_raise_404_on_missing_ids (db : Db) (rid : Z) :
  (get_record db rid = None ->
   routes.read_record db rid = HTTPException 404 "Record not found" /\
   (forall u today utcnow,
      routes.update_record db rid u today utcnow
      = HTTPException 404 "Record not found") /\
   routes.delete_record db rid = HTTPException 404 "Record not found") /\
  (forall r,
     get_record db rid = Some r ->
     routes.read_record db rid = Respond r /\
     (forall u today utcnow code detail,
        routes.update_record db rid u today utcnow <> HTTPException code detail) /\
     exists db',
       routes.delete_record db rid = Respond (db', true) /\
       routes.read_record db' rid = HTTPException 404 "Record not found" /\
       routes.delete_record db' rid = HTTPException 404 "Record not found").
Proof.
  split.
  - intros H. unfold routes.read_record, routes.update_record,
      routes.delete_record. rewrite H.
    apply get_record_missing in H.
    unfold update_record, delete_record. rewrite H. auto.
  - intros r H. unfold routes.read_record at 1. rewrite H.
    split; [reflexivity|]. split.
    + intros u today utcnow code detail Hu. unfold routes.update_record in Hu.
      destruct (get_record_found _ _ H) as [x Hx].
      destruct (update_record db rid u today utcnow) as [[d [r'|]]|e] eqn:E;
        try discriminate.
      exact (@update_record_found db rid u today utcnow x d Hx E).
    + destruct (delete_record_inv _ _ H) as (db' & H1 & H2 & _).
      exists db'. unfold routes.delete_record, routes.read_record.
      rewrite H1, H2. apply get_record_missing in H2.
      unfold delete_record. rewrite H2. auto.
Qed.

Lemma handlers_raise_404_on_missing_ids_witness :
  get_record db_two 999 = None /\
  routes.read_record db_two 999 = HTTPException 404 "Record not found" /\
  get_record db_two 1 = Some (load db_two (create_row test_album 1 10)) /\
  exists db',
    routes.delete_record db_two 1 = Respond (db', true) /\
    routes.delete_record db' 1 = HTTPException 404 "Record not found".
Proof.
  destruct (handlers_raise_404_on_missing_ids db_two 999) as [Hm _].
  destruct (handlers_raise_404_on_missing_ids db_two 1) as [_ Hs].
  split; [reflexivity|]. split; [apply (Hm eq_refl)|].
  split; [reflexivity|].
  destruct (Hs _ eq_refl) as (_ & _ & db' & H1 & _ & H3).
  exists db'. auto.
Defined.

(** ** The providers *)

Lemma string_eqb_empty (s : string) : String.eqb s "" = false <-> s <> "".
Proof.
  rewrite <- String.eqb_neq. tauto.
Qed.

Lemma configured (key secret : string) :
  key <> "" -> secret <> "" ->
  String.eqb key "" || String.eqb secret "" = false.
Proof.
  intros Hk Hs. apply string_eqb_empty in Hk, Hs. now rewrite Hk, Hs.
Qed.

(** X17.  No credentials, no lookup.  When the Discogs key or secret is
    empty, [search_discogs] and [get_album_art] return None and
    [get_album_info] returns (None, None), whatever a request would have
    given; the same with an empty Last.fm key for [get_lastfm_review]. *)
Theorem lookups_need_credentials (key secret artist title : string)
        (http : services.exchange) :
  key = "" \/ secret = "" ->
  services.search_discogs key secret artist title http = services.JNull /\
  services.get_album_art key secret artist title http
    = services.Return services.JNull /\
  services.get_album_info key secret artist title http
    = services.Return (services.JNull, services.JNull) /\
  services.get_lastfm_review "" artist title http = services.JNull.
Proof.
  intros H.
  assert (E : services.search_discogs key secret artist title http
              = services.JNull).
  { unfold services.search_discogs.
    destruct H as [-> | ->]; simpl; [reflexivity|].
    now rewrite orb_true_r. }
  unfold services.get_album_art, services.get_album_info. rewrite E.
  split_and; reflexivity.
Qed.

Lemma lookups_need_credentials_witness :
  services.get_album_info "key" "" "Miles Davis" "Kind of Blue" sample_discogs
    = services.Return (services.JNull, services.JNull) /\
  services.get_album_info "key" "secret" "Miles Davis" "Kind of Blue" sample_discogs
    = services.Return (services.JStr "https://img.example/kob.jpg",
                       services.JStr "/release/kob").
Proof.
  split; [|reflexivity].
  apply (@lookups_need_credentials "key" "" "Miles Davis" "Kind of Blue"
           sample_discogs).
  now right.
Defined.

Lemma search_discogs_first (key secret artist title : string)
      (items : list (string * services.json)) (first : services.json)
      (rest : list services.json) :
  key <> "" -> secret <> "" ->
  services.lookup items "results" = Some (services.JList (first :: rest)) ->
  services.search_discogs key secret artist title
    (services.Parsed (services.JDict items)) = first.
Proof.
  intros Hk Hs Hl. unfold services.search_discogs.
  rewrite (configured Hk Hs). simpl. rewrite Hl. reflexivity.
Qed.

(** X18.  What [search_discogs] returns.  It returns something other than
    None only when both credentials are set and the request yields an
    object whose "results" is a list, of which it returns the first
    element, or a non-empty string, of which it returns the first
    character; and with the credentials set, the first element of a
    "results" list is what it returns. *)
Theorem search_discogs_returns_first_result (key secret artist title : string)
        (http : services.exchange) :
  (services.search_discogs key secret artist title http <> services.JNull ->
   key <> "" /\ secret <> "" /\
   exists items,
     http = services.Parsed (services.JDict items) /\
     ((exists rest,
         services.lookup items "results"
         = Some (services.JList
                   (services.search_discogs key secret artist title http :: rest)))
      \/
      (exists c s,
         services.lookup items "results"
         = Some (services.JStr (String c s)) /\
         services.search_discogs key secret artist title http
         = services.JStr (String c "")))) /\
  (forall items first rest,
     key <> "" -> secret <> "" ->
     services.lookup items "results" = Some (services.JList (first :: rest)) ->
     services.search_discogs key secret artist title
       (services.Parsed (services.JDict items)) = first).
Proof.
  split.
  - unfold services.search_discogs.
    destruct (String.eqb key "") eqn:Ek; simpl; [congruence|].
    destruct (String.eqb secret "") eqn:Es; simpl; [congruence|].
    apply string_eqb_empty in Ek, Es.
    destruct http as [|data]; [congruence|].
    destruct data as [| b | q | s | l | items]; simpl; try congruence.
    destruct (services.lookup items "results") as [v|] eqn:El; simpl;
      [|congruence].
    intros H. split_and; auto. exists items. split; [reflexivity|].
    destruct v as [| b | q | s | l | d]; simpl in *; try congruence.
    + destruct b; simpl in H; congruence.
    + destruct (services.nonzero q); simpl in H; congruence.
    + destruct s as [|c s]; simpl in *; [congruence|].
      right. exists c, s. auto.
    + destruct l as [|first rest]; simpl in *; [congruence|].
      left. exists rest. exact El.
    + destruct d; simpl in H; congruence.
  - intros items first rest Hk Hs Hl.
    now apply search_discogs_first with (rest := rest).
Qed.

Lemma search_discogs_returns_first_result_witness :
  services.search_discogs "key" "secret" "Miles Davis" "Kind of Blue"
    sample_discogs
  = services.JDict
      [("title", services.JStr "Miles Davis - Kind Of Blue");
       ("cover_image", services.JStr "https://img.example/kob.jpg");
       ("uri", services.JStr "/release/kob")].
Proof.
  destruct (search_discogs_returns_first_result "key" "secret" "Miles Davis"
              "Kind of Blue" sample_discogs) as [_ H].
  apply (H [("results", _)] _ []); [discriminate|discriminate|reflexivity].
Defined.

(** X19.  Album data comes from the first result.  With the credentials
    set, when the request yields an object whose "results" list starts with
    an object, [get_album_info] returns that object's "cover_image" and
    "uri" and [get_album_art] its "cover_image", None standing for an
    absent key; neither raises. *)
Theorem album_info_reads_first_result (key secret artist title : string)
        (items first : list (string * services.json))
        (rest : list services.json) :
  key <> "" -> secret <> "" ->
  services.lookup items "results"
  = Some (services.JList (services.JDict first :: rest)) ->
  services.get_album_info key secret artist title
    (services.Parsed (services.JDict items))
  = services.Return (or_null (services.lookup first "cover_image"),
                     or_null (services.lookup first "uri")) /\
  services.get_album_art key secret artist title
    (services.Parsed (services.JDict items))
  = services.Return (or_null (services.lookup first "cover_image")).
Proof.
  intros Hk Hs Hl.
  pose proof (@search_discogs_first key secret artist title items _ rest
                Hk Hs Hl) as E.
  unfold services.get_album_info, services.get_album_art. rewrite E.
  destruct first as [|kv first]; [split; reflexivity|].
  cbn [services.truthy negb services.py_get services.py_in services.py_item
       services.pbind].
  destruct (services.lookup (kv :: first) "cover_image");
    destruct (services.lookup (kv :: first) "uri"); split; reflexivity.
Qed.

Lemma album_info_reads_first_result_witness :
  services.get_album_info "key" "secret" "Miles Davis" "Kind of Blue"
    sample_discogs
  = services.Return (services.JStr "https://img.example/kob.jpg",
                     services.JStr "/release/kob") /\
  services.get_album_art "key" "secret" "Miles Davis" "Kind of Blue"
    sample_discogs
  = services.Return (services.JStr "https://img.example/kob.jpg").
Proof.
  exact (@album_info_reads_first_result "key" "secret" "Miles Davis"
           "Kind of Blue"
           [("results",
             services.JList
               [services.JDict
                  [("title", services.JStr "Miles Davis - Kind Of Blue");
                   ("cover_image", services.JStr "https://img.example/kob.jpg");
                   ("uri", services.JStr "/release/kob")]])]
           [("title", services.JStr "Miles Davis - Kind Of Blue");
            ("cover_image", services.JStr "https://img.example/kob.jpg");
            ("uri", services.JStr "/release/kob")]
           []
           ltac:(discriminate) ltac:(discriminate) eq_refl).
Defined.

(** X20.  What [get_lastfm_review] returns.  It returns something other
    than None only when the key is set and the request yields an object
    whose "album" is an object with a "url", and then it returns that url;
    with the key set, such a document gives its url. *)
Theorem lastfm_review_returns_album_url (key artist title : string)
        (http : services.exchange) :
  (services.get_lastfm_review key artist title http <> services.JNull ->
   key <> "" /\
   exists items album,
     http = services.Parsed (services.JDict items) /\
     services.lookup items "album" = Some (services.JDict album) /\
     services.lookup album "url"
     = Some (services.get_lastfm_review key artist title http)) /\
  (forall items album url,
     key <> "" ->
     services.lookup items "album" = Some (services.JDict album) ->
     services.lookup album "url" = Some url ->
     services.get_lastfm_review key artist title
       (services.Parsed (services.JDict items)) = url).
Proof.
  split.
  - unfold services.get_lastfm_review.
    destruct (String.eqb key "") eqn:Ek; [congruence|].
    apply string_eqb_empty in Ek.
    destruct http as [|data]; [congruence|].
    destruct data as [| b | q | s | l | items]; simpl; try congruence.
    + destruct (containsb _ _); simpl; congruence.
    + destruct (existsb _ l); simpl; congruence.
    + destruct (services.lookup items "album") as [v|] eqn:El; simpl;
        [|congruence].
      destruct v as [| b | q | s | l | album]; simpl; try congruence.
      * destruct (containsb _ _); simpl; congruence.
      * destruct (existsb _ l); simpl; congruence.
      * destruct (services.lookup album "url") as [url|] eqn:Eu; simpl;
          [|congruence].
        intros H. split; [assumption|]. exists items, album. auto.
  - intros items album url Hk Hl Hu. unfold services.get_lastfm_review.
    apply string_eqb_empty in Hk. rewrite Hk. simpl.
    rewrite Hl. simpl. rewrite Hu. simpl. reflexivity.
Qed.

Lemma lastfm_review_returns_album_url_witness :
  services.get_lastfm_review "key" "Miles Davis" "Kind of Blue" sample_lastfm
  = services.JStr "https://www.last.fm/music/Miles+Davis/Kind+of+Blue".
Proof.
  destruct (lastfm_review_returns_album_url "key" "Miles Davis" "Kind of Blue"
              sample_lastfm) as [_ H].
  apply (H [("album",
             services.JDict
               [("name", services.JStr "Kind of Blue");
                ("url", services.JStr
                          "https://www.last.fm/music/Miles+Davis/Kind+of+Blue")])]
           [("name", services.JStr "Kind of Blue");
            ("url", services.JStr
                      "https://www.last.fm/music/Miles+Davis/Kind+of+Blue")]);
    [discriminate|reflexivity|reflexivity].
Defined.

(** X21.  The only exceptions of the album lookups.  [get_album_info]
    returns or raises AttributeError, and [get_album_art] returns or raises
    TypeError; either raises only when the first result [search_discogs]
    found is a true value that is not an object. *)
Theorem album_lookups_raise_only_on_non_objects
        (key secret artist title : string) (http : services.exchange) :
  (forall e,
     services.get_album_info key secret artist title http = services.Raised e ->
     e = services.AttributeError /\
     services.truthy (services.search_discogs key secret artist title http)
     = true /\
     forall items,
       services.search_discogs key secret artist title http
       <> services.JDict items) /\
  (forall e,
     services.get_album_art key secret artist title http = services.Raised e ->
     e = services.TypeError /\
     services.truthy (services.search_discogs key secret artist title http)
     = true /\
     forall items,
       services.search_discogs key secret artist title http
       <> services.JDict items).
Proof.
  unfold services.get_album_info, services.get_album_art.
  destruct (services.search_discogs key secret artist title http)
    as [| b | q | s | l | items]; split; intros e H; simpl in H;
    try discriminate.
  - destruct b; simpl in H; inversion H. split_and; auto; discriminate.
  - destruct b; simpl in H; inversion H. split_and; auto; discriminate.
  - destruct (services.nonzero q) eqn:Eq; simpl in H; inversion H.
    split_and; auto; discriminate.
  - destruct (services.nonzero q) eqn:Eq; simpl in H; inversion H.
    split_and; auto; discriminate.
  - destruct (negb (String.eqb s "")) eqn:Es; simpl in H; inversion H.
    split_and; auto; discriminate.
  - destruct (negb (String.eqb s "")) eqn:Es; simpl in H; [|discriminate].
    destruct (containsb _ _); simpl in H; inversion H.
    split_and; auto; discriminate.
  - destruct l; simpl in H; inversion H. split_and; auto; discriminate.
  - destruct l as [|x l]; simpl in H; [discriminate|].
    destruct (services.is_str "cover_image" x || existsb _ l); simpl in H;
      inversion H.
    split_and; auto; discriminate.
  - destruct items as [|kv items]; simpl in H; [discriminate|].
    destruct (services.lookup (kv :: items) "uri"); simpl in H; discriminate.
  - destruct items as [|kv items]; simpl in H; [discriminate|].
    destruct (services.lookup (kv :: items) "cover_image"); simpl in H;
      discriminate.
Qed.

Lemma album_lookups_raise_only_on_non_objects_witness :
  services.get_album_info "key" "secret" "Miles Davis" "Kind of Blue"
    (services.Parsed
       (services.JDict [("results", services.JList [services.JStr "Kind of Blue"])]))
  = services.Raised services.AttributeError /\
  services.truthy
    (services.search_discogs "key" "secret" "Miles Davis" "Kind of Blue"
       (services.Parsed
          (services.JDict
             [("results", services.JList [services.JStr "Kind of Blue"])])))
  = true.
Proof.
  destruct (album_lookups_raise_only_on_non_objects "key" "secret" "Miles Davis"
              "Kind of Blue"
              (services.Parsed
                 (services.JDict
                    [("results", services.JList [services.JStr "Kind of Blue"])])))
    as [H _].
  destruct (H services.AttributeError eq_refl) as (_ & Ht & _).
  split; [reflexivity|exact Ht].
Defined.

(** ** Search after a write *)

Lemma prefixb_refl (s : list ascii) : prefixb s s = true.
Proof.
  induction s as [|c s IH]; simpl; [reflexivity|].
  now rewrite Ascii.eqb_refl.
Qed.

Lemma contains_ci_refl (s : string) : contains_ci s s = true.
Proof.
  unfold contains_ci. rewrite containsb_some_suffix.
  apply some_suffix_here, prefixb_refl.
Qed.

Lemma found_by_own_fields (db : Db) (x : RecordRow) :
  In x (records db) ->
  In (load db x) (results (search_records db (title x) 0 (-1))) /\
  In (load db x) (results (search_records db (artist x) 0 (-1))) /\
  (forall g, In g (genres_of db (id x)) ->
             In (load db x) (results (search_records db (genre_name g) 0 (-1)))).
Proof.
  intros Hx.
  assert (Hall : In (load db x) (all_records db)) by now apply in_map.
  split_and.
  - apply search_finds_substring_matches_aux; auto.
    unfold spec_matches. cbn [row load]. now rewrite contains_ci_refl.
  - apply search_finds_substring_matches_aux; auto.
    unfold spec_matches. cbn [row load].
    now rewrite contains_ci_refl, orb_true_r.
  - intros g Hg. apply search_finds_substring_matches_aux; auto.
    unfold spec_matches. cbn [row load genres]. rewrite !orb_true_iff. right.
    apply existsb_exists. exists g. split; [assumption|apply contains_ci_refl].
Qed.

(** X22.  What was written is found.  After a successful create, and
    after a successful update, the unpaged search for the title of the
    returned record, for its artist, or for the name of any of its genres
    has that record among its results. *)
Theorem written_record_is_found (db : Db) :
  wf db ->
  (forall record now db' r,
     create_record db record now = Ok (db', r) ->
     In r (results (search_records db' (rc_title record) 0 (-1))) /\
     In r (results (search_records db' (rc_artist record) 0 (-1))) /\
     (forall n, In n (input_genres record) ->
                In r (results (search_records db' n 0 (-1))))) /\
  (forall rid u today utcnow db' r',
     update_record db rid u today utcnow = Ok (db', Some r') ->
     In r' (results (search_records db' (title (row r')) 0 (-1))) /\
     In r' (results (search_records db' (artist (row r')) 0 (-1))) /\
     (forall g, In g (genres r') ->
                In r' (results (search_records db' (genre_name g) 0 (-1))))).
Proof.
  intros W. split.
  - intros record now db' r H.
    destruct (create_record_inv _ _ W H) as (ext & ng & nt & Hr & H1 & _).
    destruct (create_record_loaded _ _ W H) as (_ & _ & Hn & _).
    set (x := create_row record (next_id (map id (records db))) now) in *.
    assert (Hx : In x (records db')).
    { rewrite H1. apply in_or_app. right. now left. }
    destruct (found_by_own_fields db' x Hx) as (F1 & F2 & F3).
    rewrite <- Hr in F1, F2, F3. split_and; auto.
    intros n Hin. rewrite <- Hn in Hin. apply in_map_iff in Hin.
    destruct Hin as (g & <- & Hg). apply F3. subst r. exact Hg.
  - intros rid u today utcnow db' r' H.
    destruct (update_record_inv _ _ _ _ W H)
      as (old & t & a & Hf & Hid & _ & _ & Hr & Hrec & _).
    set (x := update_row old u t a today utcnow) in *.
    assert (Hx : In x (records db')).
    { rewrite Hrec. apply in_map_iff. exists old.
      apply find_record_id in Hf. destruct Hf as [Hin Ho].
      split; [|assumption]. apply Z.eqb_eq in Ho. now rewrite Ho. }
    destruct (found_by_own_fields db' x Hx) as (F1 & F2 & F3).
    rewrite <- Hr in F1, F2, F3. subst r'. split_and; auto.
Qed.

Lemma written_record_is_found_witness :
  wf db_one /\
  exists db' r',
    update_record db_one 1 (update_title_only "100% Live_Take") 12 12
      = Ok (db', Some r') /\
    In r' (results (search_records db' "100% Live_Take" 0 (-1))).
Proof.
  split; [exact wf_db_one|].
  destruct (written_record_is_found wf_db_one) as [_ Hu].
  eexists. eexists. split; [vm_compute; reflexivity|].
  refine (proj1 (Hu 1 (update_title_only "100% Live_Take") 12 12 _ _ _)).
  vm_compute. reflexivity.
Defined.

(** X23.  What was deleted is not found.  After [delete_record] has
    answered for an id, no search, whatever the query and the page, and no
    listing returns a record with that id. *)
Theorem deleted_record_is_not_found (db : Db) (rid : Z) (db' : Db) (b : bool) :
  delete_record db rid = Ok (db', b) ->
  (forall q skip limit r,
     In r (results (search_records db' q skip limit)) -> id (row r) <> rid) /\
  (forall skip limit r,
     In r (get_records db' skip limit) -> id (row r) <> rid).
Proof.
  intros H.
  assert (Hno : forall x, In x (records db') -> id x <> rid).
  { unfold delete_record in H.
    destruct (find_record db rid) eqn:E; inversion H; subst; clear H.
    - cbn [records]. intros x Hx. apply filter_In in Hx.
      destruct Hx as [_ Hx]. now apply negb_true_iff, Z.eqb_neq in Hx.
    - intros x Hx. apply (find_none _ _ E) in Hx. now apply Z.eqb_neq in Hx. }
  split.
  - intros q skip limit r Hr.
    destruct (search_pages_one_match_list_aux db' q skip limit r Hr)
      as (x & <- & Hx). now apply Hno.
  - intros skip limit r Hr. unfold get_records in Hr.
    apply in_page, in_map_iff in Hr. destruct Hr as (x & <- & Hx).
    now apply Hno.
Qed.

Lemma deleted_record_is_not_found_witness :
  In rec_one (results (search_records db_one "test" 0 10)) /\
  exists db',
    delete_record db_one 1 = Ok (db', true) /\
    results (search_records db' "test" 0 10) = [].
Proof.
  split; [vm_compute; auto|].
  eexists. split; [vm_compute; reflexivity|].
  destruct (@deleted_record_is_not_found db_one 1 _ true eq_refl) as [Hs _].
  destruct (results (search_records _ "test" 0 10)) as [|r l] eqn:E;
    [reflexivity|].
  exfalso. vm_compute in E. discriminate.
Defined.

Lemma create_genres_new_rows (names : list string) : forall db acc db' gs,
  create_genres db names acc = Ok (db', gs) ->
  exists ext, genres_tbl db' = genres_tbl db ++ ext /\
              forall g, In g ext -> In (genre_name g) names.
Proof.
  induction names as [|n rest IH]; simpl; intros db acc db' gs H.
  - inversion H; subst. exists []. rewrite app_nil_r. split; [reflexivity|].
    intros g [].
  - destruct (get_genre_by_name db n) as [g0|]; simpl in H.
    + destruct (IH _ _ _ _ H) as (ext & E & Hn). exists ext. split; auto.
    + unfold insert_genre in H. destruct (existsb _ _); simpl in H;
        [discriminate|].
      destruct (IH _ _ _ _ H) as (ext & E & Hn). simpl in E.
      eexists (_ :: ext). rewrite E, <- app_assoc. split; [reflexivity|].
      intros g [<-|Hg]; simpl; auto.
Qed.

Lemma create_record_new_genres (db : Db) (record : RecordCreate) (now : date)
      (db' : Db) (r : RecordObj) :
  create_record db record now = Ok (db', r) ->
  exists ext, genres_tbl db' = genres_tbl db ++ ext /\
              forall g, In g ext -> In (genre_name g) (input_genres record).
Proof.
  unfold create_record. rewrite create_genres_phase.
  intros H.
  destruct (create_genres db (input_genres record) []) as [[db1 gs]|] eqn:Eg;
    simpl in H; [|discriminate].
  destruct (insert_edges _ _) as [db3|] eqn:Ee; simpl in H; [|discriminate].
  rewrite insert_tracks_phase in H.
  inversion H; subst db' r; clear H.
  apply insert_edges_inv in Ee. simpl in Ee. destruct Ee as (_ & G3 & _).
  destruct (insert_tracks_spec (next_id (map id (records db1)))
              (input_tracks record) db3) as (_ & G4 & _).
  rewrite G4, G3. exact (create_genres_new_rows _ _ _ Eg).
Qed.

(** X24.  Delete undoes create, genres apart.  When the record a create
    returned is deleted next, the tables "records", "tracks" and
    "record_genre" are what they were before the create; "genres" keeps the
    rows the create added, whose names are names of the input. *)
Theorem delete_undoes_create_except_genres (db : Db) (record : RecordCreate)
        (now : date) (db1 db2 : Db) (r : RecordObj) (b : bool) :
  wf db ->
  create_record db record now = Ok (db1, r) ->
  delete_record db1 (id (row r)) = Ok (db2, b) ->
  b = true /\
  records db2 = records db /\ tracks_tbl db2 = tracks_tbl db /\
  record_genre db2 = record_genre db /\
  genres_tbl db2 = genres_tbl db1 /\
  exists ext, genres_tbl db2 = genres_tbl db ++ ext /\
              forall g, In g ext -> In (genre_name g) (input_genres record).
Proof.
  intros W H1 H2.
  destruct (create_record_inv _ _ W H1)
    as (ext & ng & nt & _ & R1 & G1 & T1 & E1 & Hn & Hin & _ & _ & Ht & _).
  destruct (create_record_loaded _ _ W H1) as (Hrow & Hget & _).
  assert (Hid : id (row r) = next_id (map id (records db))) by now rewrite Hrow.
  destruct (delete_record_inv _ _ Hget) as (d & Hd & _).
  rewrite Hd in H2. inversion H2; subst d b; clear H2.
  unfold delete_record in Hd.
  destruct (find_record db1 (id (row r))); inversion Hd as [Hdb]; clear Hd.
  cbn [records tracks_tbl record_genre genres_tbl].
  split_and; auto.
  - rewrite R1. apply filter_drop_last; [now rewrite Hid|].
    rewrite Hid. apply next_id_gt.
  - rewrite T1, filter_app, (filter_none _ nt), app_nil_r.
    + apply filter_all. intros t Hin'. apply negb_true_iff, Z.eqb_neq.
      intros E. apply (wf_track_record W) in Hin'. rewrite E, Hid in Hin'.
      now apply next_id_fresh in Hin'.
    + intros t Hin'. rewrite Forall_forall in Ht. rewrite (Ht t Hin'), Hid.
      now rewrite Z.eqb_refl.
  - rewrite E1, filter_app, (filter_none _ (map _ ng)), app_nil_r.
    + apply filter_all. intros e Hin'. apply negb_true_iff, Z.eqb_neq.
      intros E. apply (wf_edge_record W) in Hin'. rewrite E, Hid in Hin'.
      now apply next_id_fresh in Hin'.
    + intros e Hin'. apply in_map_iff in Hin'. destruct Hin' as (g & <- & _).
      simpl. now rewrite Hid, Z.eqb_refl.
  - exact (create_record_new_genres _ _ _ H1).
Qed.

Lemma delete_undoes_create_except_genres_witness :
  wf db_one /\
  exists r db2,
    create_record db_one
      (with_genres (blank_create "Kind of Blue" "Miles Davis") ["Jazz"; "Rock"]) 11
      = Ok (db_two, r) /\
    delete_record db_two (id (row r)) = Ok (db2, true) /\
    records db2 = records db_one /\ tracks_tbl db2 = tracks_tbl db_one /\
    record_genre db2 = record_genre db_one /\
    map genre_name (genres_tbl db2) = ["Rock"; "Pop"; "Jazz"].
Proof.
  split; [exact wf_db_one|].
  eexists. eexists. split; [vm_compute; reflexivity|].
  split; [vm_compute; reflexivity|].
  destruct (@delete_undoes_create_except_genres db_one
              (with_genres (blank_create "Kind of Blue" "Miles Davis")
                           ["Jazz"; "Rock"])
              11 db_two _ _ true wf_db_one eq_refl eq_refl)
    as (_ & H1 & H2 & H3 & _).
  split_and; auto.
Defined.

(** ** Repeating an update *)

Lemma update_genres_all_found (rid : Z) (new : list Genre) : forall db cur,
  NoDup (map genre_name (genres_tbl db)) ->
  Forall (fun g => In g (genres_tbl db)) new ->
  update_genres db rid (map genre_name new) cur
  = Ok (db, cur ++ map genre_id new).
Proof.
  induction new as [|g new IH]; simpl; intros db cur Hnd Hin.
  - now rewrite app_nil_r.
  - inversion Hin as [|? ? Hg Hnew]; subst.
    unfold get_genre_by_name.
    rewrite (find_key genre_name String.eqb String.eqb_eq _ _ Hnd Hg). simpl.
    rewrite IH by assumption. now rewrite <- app_assoc.
Qed.

Lemma db_eta (db : Db) :
  mkDb (records db) (genres_tbl db) (tracks_tbl db) (record_genre db) = db.
Proof.
  now destruct db.
Qed.

Lemma sync_genres_noop (db : Db) (rid : Z) (cur : list Z) :
  (forall gid, In (rid, gid) (record_genre db) <-> In gid cur) ->
  sync_genres db rid cur = Ok db.
Proof.
  intros H. unfold sync_genres.
  rewrite (filter_none _ cur).
  - simpl. unfold set_record_genre. rewrite filter_all; [now rewrite db_eta|].
    intros [r g] Hin. simpl. destruct (r =? rid) eqn:E; [|reflexivity].
    apply Z.eqb_eq in E. subst r. simpl. apply mem_z_In. now apply H.
  - intros g Hg. apply negb_false_iff, mem_z_In, in_orig. now apply H.
Qed.

Lemma setattr_twice {A} (v : option A) (old : A) :
  setattr v (setattr v old) = setattr v old.
Proof.
  destruct v; reflexivity.
Qed.

Lemma setattr_not_null_twice {A} (v : option (option A)) (old x : A) :
  setattr_not_null v old = Ok x -> setattr_not_null v x = Ok x.
Proof.
  destruct v as [[y|]|]; simpl; intros H; inversion H; reflexivity.
Qed.

Lemma eq_opt_refl {A} (eqb : A -> A -> bool) (x : option A) :
  (forall a, eqb a a = true) -> eq_opt eqb x x = true.
Proof.
  intros H. destruct x; simpl; auto.
Qed.

(** A row is not modified by assigning it the values it has. *)
Lemma modified_same (r r' : RecordRow) :
  title r' = title r -> artist r' = artist r ->
  release_date r' = release_date r -> label r' = label r ->
  catalog_number r' = catalog_number r -> format r' = format r ->
  condition r' = condition r -> purchase_date r' = purchase_date r ->
  purchase_price r' = purchase_price r ->
  album_art_url r' = album_art_url r -> notes r' = notes r ->
  discogs_url r' = discogs_url r -> review_url r' = review_url r ->
  modified r r' = false.
Proof.
  unfold modified. intros -> -> -> -> -> -> -> -> -> -> -> -> ->.
  rewrite !String.eqb_refl.
  rewrite !(eq_opt_refl String.eqb) by apply String.eqb_refl.
  rewrite !(eq_opt_refl Z.eqb) by apply Z.eqb_refl.
  rewrite (eq_opt_refl Qeq_bool) by apply Qeq_bool_refl.
  reflexivity.
Qed.

Lemma set_updated_at_same (r : RecordRow) :
  set_updated_at r (updated_at r) = r.
Proof.
  now destruct r.
Qed.

(** The second application of an update assigns what the row holds, so it
    stores the local date. *)
Lemma update_row_twice (old : RecordRow) (u : RecordUpdate) (t a : string)
      (today utcnow : date) :
  update_row (update_row old u t a today utcnow) u t a today utcnow
  = assign_row old u t a today.
Proof.
  unfold update_row at 1. cbv zeta.
  rewrite modified_same;
    try (unfold update_row; cbn; now rewrite ?setattr_twice).
  rewrite andb_false_r. unfold update_row, assign_row, set_updated_at. cbn.
  now rewrite !setattr_twice.
Qed.

Lemma filter_twice {A} (p : A -> bool) (l : list A) :
  filter p (filter p l) = filter p l.
Proof.
  apply filter_all. intros x Hx. apply filter_In in Hx. tauto.
Qed.

Lemma replace_replaced (rid : Z) (new new' : RecordRow) (l : list RecordRow) :
  id new = rid ->
  map (fun r => if id r =? rid then new' else r)
      (map (fun r => if id r =? rid then new else r) l)
  = map (fun r => if id r =? rid then new' else r) l.
Proof.
  intros Hn. rewrite map_map. apply map_ext. intros r.
  destruct (id r =? rid) eqn:E.
  - now rewrite Hn, Z.eqb_refl.
  - now rewrite E.
Qed.

(** The same update, applied to the store a successful update left. *)
Lemma update_record_repeat (db : Db) (rid : Z) (u : RecordUpdate)
      (today utcnow : date) (db1 : Db) (r1 : RecordObj) :
  wf db -> update_record db rid u today utcnow = Ok (db1, Some r1) ->
  update_record db1 rid u today utcnow
  = Ok (set_records db1
          (map (fun r => if id r =? rid
                         then set_updated_at (row r1) today else r)
               (records db1)),
        Some (mkObj (set_updated_at (row r1) today) (genres r1) (tracks r1))).
Proof.
  intros W H.
  destruct (update_record_inv _ _ _ _ W H)
    as (old & t & a & Hf & Hid & Ht & Ha & Hr & Hrec & W1 & Htr & Hg).
  assert (Htt : setattr_not_null (ru_title u)
                  (title (update_row old u t a today utcnow)) = Ok t).
  { apply setattr_not_null_twice with (old := title old). exact Ht. }
  assert (Haa : setattr_not_null (ru_artist u)
                  (artist (update_row old u t a today utcnow)) = Ok a).
  { apply setattr_not_null_twice with (old := artist old). exact Ha. }
  pose proof (update_row_twice old u t a today utcnow) as Hrow2.
  assert (Hnew : id (update_row old u t a today utcnow) = rid) by exact Hid.
  assert (Hstamp : set_updated_at (update_row old u t a today utcnow) today
                   = assign_row old u t a today) by reflexivity.
  remember (update_row old u t a today utcnow) as new eqn:Enew.
  assert (Hf1 : find_record db1 rid = Some new).
  { unfold find_record. rewrite Hrec. now apply find_replace with (old := old). }
  assert (Hg1 : exists cur,
             replace_genres db1 rid u = Ok (db1, cur) /\
             match cur with
             | Some c => sync_genres db1 rid c
             | None => Ok db1
             end = Ok db1).
  { unfold replace_genres. destruct (ru_genres u) as [[names|]|];
      [| contradiction |].
    - destruct Hg as (_ & _ & g & Hn & Hin & He).
      exists (Some (map genre_id g)). rewrite <- Hn.
      rewrite update_genres_all_found; [|apply W1|assumption].
      split; [reflexivity|]. now apply sync_genres_noop.
    - exists None. auto. }
  assert (Ht1 : replace_tracks db1 rid u = Ok db1).
  { unfold replace_tracks. destruct (ru_tracks u) as [[[|? ?]|]|];
      try contradiction; [|reflexivity].
    unfold set_tracks_tbl. rewrite Htr, filter_twice, <- Htr.
    now rewrite db_eta. }
  destruct Hg1 as (cur & Hg1 & Hs).
  unfold update_record. rewrite Hf1, Hg1. cbn [bind]. rewrite Ht1. cbn [bind].
  rewrite Htt, Haa. cbn [bind]. rewrite Hrow2, Hs. cbn [bind].
  subst r1. cbn [row genres tracks load]. rewrite Hstamp.
  unfold load. cbn [id assign_row]. rewrite Hid, Hnew. reflexivity.
Qed.

(** A successful update that stored the local date is a fixed point. *)
Lemma update_record_fixed (db : Db) (rid : Z) (u : RecordUpdate)
      (today utcnow : date) (db1 : Db) (r1 : RecordObj) :
  wf db -> update_record db rid u today utcnow = Ok (db1, Some r1) ->
  updated_at (row r1) = today ->
  update_record db1 rid u today utcnow = Ok (db1, Some r1).
Proof.
  intros W H Hu. rewrite (update_record_repeat _ _ _ _ W H).
  destruct (update_record_inv _ _ _ _ W H)
    as (old & t & a & Hf & Hid & _ & _ & Hr & Hrec & _).
  rewrite <- Hu, set_updated_at_same.
  assert (Hrow : row r1 = update_row old u t a today utcnow)
    by (now rewrite Hr).
  assert (E : set_records db1
                (map (fun r => if id r =? rid then row r1 else r) (records db1))
              = db1).
  { unfold set_records. rewrite Hrec, Hrow, replace_replaced by exact Hid.
    rewrite <- Hrec. apply db_eta. }
  rewrite E. now destruct r1.
Qed.

(** X25.  Repeating an update.  When [update_record] has returned a
    record, the same update with the same readings of the clock returns
    that record with the local date as updated_at, its other columns, its
    genres and its tracks unchanged.  So the repetition changes nothing
    when the first update stored the local date, and in every case a third
    application changes nothing after the second. *)
Theorem repeated_update_settles (db : Db) (rid : Z) (u : RecordUpdate)
        (today utcnow : date) (db1 : Db) (r1 : RecordObj) :
  wf db -> update_record db rid u today utcnow = Ok (db1, Some r1) ->
  (updated_at (row r1) = today ->
   update_record db1 rid u today utcnow = Ok (db1, Some r1)) /\
  exists db2 r2,
    update_record db1 rid u today utcnow = Ok (db2, Some r2) /\
    row r2 = set_updated_at (row r1) today /\
    genres r2 = genres r1 /\ tracks r2 = tracks r1 /\
    update_record db2 rid u today utcnow = Ok (db2, Some r2).
Proof.
  intros W H. split; [intros Hu; exact (update_record_fixed _ _ _ W H Hu)|].
  pose proof (update_record_repeat _ _ _ _ W H) as H2.
  eexists. eexists. split; [exact H2|]. cbn [row genres tracks].
  split_and; try reflexivity.
  apply update_record_fixed with (db := db1); [|exact H2|reflexivity].
  exact (update_record_wf _ _ _ _ W H).
Qed.

(** Record 1 of [db_one] carries day 10.  West of UTC in the evening of
    day 10, a change of its title stores the UTC date, day 11; the same
    update again stores the local date, day 10, and from then on nothing
    changes. *)
Lemma repeated_update_settles_witness :
  wf db_one /\
  exists db1 r1 db2 r2,
    update_record db_one 1 (update_title_only "Second Pressing") 10 11
      = Ok (db1, Some r1) /\
    updated_at (row r1) = 11 /\
    update_record db1 1 (update_title_only "Second Pressing") 10 11
      = Ok (db2, Some r2) /\
    updated_at (row r2) = 10 /\
    update_record db2 1 (update_title_only "Second Pressing") 10 11
      = Ok (db2, Some r2).
Proof.
  split; [exact wf_db_one|].
  destruct (@repeated_update_settles db_one 1
              (update_title_only "Second Pressing") 10 11
              (store_of (update_record db_one 1
                           (update_title_only "Second Pressing") 10 11))
              (load (store_of (update_record db_one 1
                                 (update_title_only "Second Pressing") 10 11))
                    (update_row (row rec_one)
                                (update_title_only "Second Pressing")
                                "Second Pressing" "Test Artist" 10 11))
              wf_db_one eq_refl)
    as (_ & db2 & r2 & H2 & Hrow & _ & _ & H3).
  eexists. eexists. exists db2, r2.
  split; [reflexivity|]. split; [reflexivity|]. split; [exact H2|].
  split; [now rewrite Hrow|exact H3].
Defined.

(** ** Genres and tracks of a stored record *)

Lemma tracks_of_owner (db : Db) (rid : Z) (t : Track) :
  In t (tracks_of db rid) <-> In t (tracks_tbl db) /\ track_record_id t = rid.
Proof.
  unfold tracks_of. rewrite filter_In, Z.eqb_eq. reflexivity.
Qed.

(** X26.  What a stored record carries.  On a well-formed store the genres
    of a record [get_record] returns are pairwise distinct and distinctly
    named, each of them is listed by the unpaged [get_genres] and is what
    [get_genre_by_name] returns for its name; its tracks are exactly the
    rows of "tracks" that carry its id, so no track belongs to two
    records. *)
Theorem stored_record_carries_listed_genres (db : Db) (rid : Z) (r : RecordObj) :
  wf db -> get_record db rid = Some r ->
  id (row r) = rid /\
  NoDup (genres r) /\ NoDup (map genre_name (genres r)) /\
  (forall g, In g (genres r) ->
             In g (get_genres db 0 (-1)) /\
             get_genre_by_name db (genre_name g) = Some g) /\
  (forall t, In t (tracks r) <->
             In t (tracks_tbl db) /\ track_record_id t = rid) /\
  (forall other r' t,
     get_record db other = Some r' -> other <> rid ->
     In t (tracks r) -> ~ In t (tracks r')).
Proof.
  intros W Hg. unfold get_record in Hg.
  destruct (find_record db rid) as [x|] eqn:Hf; [|discriminate].
  apply find_record_id in Hf. destruct Hf as [_ Hid].
  simpl in Hg. injection Hg as <-. unfold load. simpl. rewrite Hid.
  assert (Hin : forall g, In g (genres_of db rid) -> In g (genres_tbl db)).
  { intros g H. now apply (in_genres_of db rid g (wf_genre_ids W)) in H. }
  split_and.
  - reflexivity.
  - apply genres_of_NoDup, (wf_edges W).
  - apply NoDup_map_NoDup_ForallPairs; [|apply genres_of_NoDup, (wf_edges W)].
    intros a b Ha Hb E. pose proof (wf_genre_names W) as Hn.
    apply (key_inj genre_name (genres_tbl db)); auto.
  - intros g H. apply Hin in H. unfold get_genres, get_genre_by_name.
    rewrite page_all. split; [assumption|].
    pose proof (wf_genre_names W) as Hn.
    apply (find_key genre_name String.eqb String.eqb_eq); auto.
  - intros t. apply tracks_of_owner.
  - intros other r' t Hg' Hne Ht Ht'. unfold get_record in Hg'.
    destruct (find_record db other) as [y|] eqn:Hf'; [|discriminate].
    apply find_record_id in Hf'. destruct Hf' as [_ Hid'].
    simpl in Hg'. injection Hg' as <-. unfold load in Ht'. simpl in Ht'.
    rewrite Hid' in Ht'.
    apply tracks_of_owner in Ht, Ht'. destruct Ht as [_ E], Ht' as [_ E'].
    congruence.
Qed.

Lemma stored_record_carries_listed_genres_witness :
  wf db_two /\
  exists r,
    get_record db_two 2 = Some r /\
    In "Jazz" (map genre_name (genres r)) /\
    In "Rock" (map genre_name (genres r)) /\
    forall g, In g (genres r) ->
              In g (get_genres db_two 0 (-1)) /\
              get_genre_by_name db_two (genre_name g) = Some g.
Proof.
  split; [exact wf_db_two|].
  eexists. split; [vm_compute; reflexivity|].
  split; [simpl; auto|]. split; [simpl; auto|].
  apply (@stored_record_carries_listed_genres db_two 2 _ wf_db_two).
  vm_compute. reflexivity.
Defined.

(** ** Frame of an update *)

(** X27.  What an update changes.  An update of an existing record returns
    the record on every accepted input; and whenever it returns, every
    column named in the input has the supplied value and every other column
    has its previous value, as do the genres and the tracks when their keys
    are absent; id and created_at are unchanged.  updated_at is the local
    date of the update, except when the record already carried that date
    and another column changes: then it is the UTC date. *)
Theorem update_changes_only_input_fields (db : Db) (rid : Z) (u : RecordUpdate)
        (today utcnow : date) (r : RecordObj) :
  wf db -> get_record db rid = Some r ->
  (update_accepted u ->
   exists db' r', update_record db rid u today utcnow = Ok (db', Some r')) /\
  (forall db' r',
     update_record db rid u today utcnow = Ok (db', Some r') ->
     id (row r') = id (row r) /\
     created_at (row r') = created_at (row r) /\
     field_updated (ru_title u) (Some (title (row r))) (Some (title (row r'))) /\
     field_updated (ru_artist u) (Some (artist (row r))) (Some (artist (row r'))) /\
     field_updated (ru_release_date u) (release_date (row r))
                   (release_date (row r')) /\
     field_updated (ru_label u) (label (row r)) (label (row r')) /\
     field_updated (ru_catalog_number u) (catalog_number (row r))
                   (catalog_number (row r')) /\
     field_updated (ru_format u) (format (row r)) (format (row r')) /\
     field_updated (ru_condition u) (condition (row r)) (condition (row r')) /\
     field_updated (ru_purchase_date u) (purchase_date (row r))
                   (purchase_date (row r')) /\
     field_updated (ru_purchase_price u) (purchase_price (row r))
                   (purchase_price (row r')) /\
     field_updated (ru_album_art_url u) (album_art_url (row r))
                   (album_art_url (row r')) /\
     field_updated (ru_notes u) (notes (row r)) (notes (row r')) /\
     field_updated (ru_discogs_url u) (discogs_url (row r))
                   (discogs_url (row r')) /\
     field_updated (ru_review_url u) (review_url (row r)) (review_url (row r')) /\
     (ru_genres u = None -> genres r' = genres r) /\
     (ru_tracks u = None -> tracks r' = tracks r) /\
     updated_at (row r') =
       (if (today =? updated_at (row r)) && modified (row r) (row r')
        then utcnow else today)).
Proof.
  intros W Hget. split.
  { intros Ha. now apply update_record_total with (r := r). }
  intros db' r' H.
  destruct (update_record_inv _ _ _ _ W H)
    as (old & t & a & Hf & Hid & Ht & Ha & Hr & Hrec & W' & Htr & Hg).
  unfold get_record in Hget. rewrite Hf in Hget. simpl in Hget.
  inversion Hget; subst r; clear Hget. subst r'.
  cbn [row load genres tracks] in *.
  split_and;
    try (cbn [id title artist release_date label catalog_number format
              condition purchase_date purchase_price album_art_url notes
              discogs_url review_url created_at update_row set_updated_at
              assign_row];
         auto using setattr_updated, setattr_not_null_updated; fail).
  - intros Hu. rewrite Hu in Hg. destruct Hg as [G1 G2].
    now apply genres_of_same.
  - intros Hu. rewrite Hu in Htr. unfold tracks_of. now rewrite Htr.
Qed.

Lemma update_changes_only_input_fields_witness :
  get_record db_one 1 = Some rec_one /\
  exists db' r',
    update_record db_one 1 (update_title_only "Second Pressing") 10 11
      = Ok (db', Some r') /\
    Some (title (row r')) = Some "Second Pressing" /\
    Some (artist (row r')) = Some (artist (row rec_one)) /\
    genres r' = genres rec_one /\ tracks r' = tracks rec_one /\
    updated_at (row r') = 11.
Proof.
  split; [reflexivity|].
  destruct (@update_changes_only_input_fields db_one 1
              (update_title_only "Second Pressing") 10 11 rec_one
              wf_db_one eq_refl)
    as [Hex Hall].
  destruct Hex as (db' & r' & H).
  - repeat split; simpl; discriminate.
  - exists db', r'. split; [exact H|].
    destruct (Hall db' r' H)
      as (_ & _ & Ht & Ha & _ & _ & _ & _ & _ & _ & _ & _ & _ & _ & _ & Hg & Htr & Hu).
    split; [exact Ht|]. split; [exact Ha|].
    split; [exact (Hg eq_refl)|]. split; [exact (Htr eq_refl)|].
    rewrite Hu.
    assert (E : r' = load db' (update_row (row rec_one)
                                 (update_title_only "Second Pressing")
                                 "Second Pressing" "Test Artist" 10 11)).
    { assert (E' : Ok (db', Some r')
                   = update_record db_one 1
                       (update_title_only "Second Pressing") 10 11)
        by (now rewrite H).
      vm_compute in E'. injection E' as -> ->. reflexivity. }
    rewrite E. reflexivity.
Defined.
